(** * YCOE / Treebank corpus readers: the chunk-tree builder and its glue

    A shallow embedding of [nltk/corpus/reader/ycoe.py] and
    [nltk/corpus/treebank.py].  Python strings are [string]s (8-bit
    characters), Python integers are [Z], Python lists keep their order
    (index [-1] is the last element), and every operation that can raise
    returns a [result].

    The builder is the body of [_chunk_parse] (ycoe.py, lines 348-400): it
    scans the tokens of one sentence and yields the frame stack.  File
    lookup ([find_corpus_file]), the tokenizers of [nltk.tokenize], the
    bracket parser of [nltk.tree] and [BracketParseCorpusReader] live
    outside these two files: the builder takes the tokens of a sentence as
    its input, and the dispatchers return which reader they select. *)

From Stdlib Require Import String Ascii List ZArith Bool Arith Lia Sorted.
From Equations Require Import Equations.
Import ListNotations.

Local Open Scope string_scope.
Local Open Scope list_scope.

(** ** Exceptions and the error monad *)

Inductive exn : Type :=
| IndexError
| TypeError
| AttributeError
| ValueError.

Inductive result (A : Type) : Type :=
| Ok (a : A)
| Raise (e : exn).
Arguments Ok {A} a.
Arguments Raise {A} e.

Definition bind {A B : Type} (r : result A) (k : A -> result B) : result B :=
  match r with
  | Ok a => k a
  | Raise e => Raise e
  end.

Notation "x <- e ;; k" := (bind e (fun x => k))
  (at level 61, e at next level, right associativity).
Notation "' p <- e ;; k" := (bind e (fun x => let p := x in k))
  (at level 61, p pattern, e at next level, right associativity).

(** ** Python sequence operations *)

Module Py.

(** [s[0]] *)
Definition first (s : string) : result ascii :=
  match s with
  | EmptyString => Raise IndexError
  | String c _ => Ok c
  end.

(** [s[1:]] *)
Definition tail (s : string) : string :=
  match s with
  | EmptyString => EmptyString
  | String _ r => r
  end.

(** [s[-1]] *)
Fixpoint final (s : string) : result ascii :=
  match s with
  | EmptyString => Raise IndexError
  | String c EmptyString => Ok c
  | String _ r => final r
  end.

(** [s[:n]] *)
Definition upto (n : nat) (s : string) : string := substring 0 n s.

(** [string.split(s, sep)] for a one-character separator. *)
Fixpoint split (s : string) (sep : ascii) : list string :=
  match s with
  | EmptyString => [EmptyString]
  | String c r =>
      if Ascii.eqb c sep then EmptyString :: split r sep
      else match split r sep with
           | [] => [String c EmptyString]
           | h :: t => String c h :: t
           end
  end.

(** [l[0]] *)
Definition head {A : Type} (l : list A) : result A :=
  match l with
  | [] => Raise IndexError
  | x :: _ => Ok x
  end.

(** [l[:-n]] *)
Definition drop_end {A : Type} (n : nat) (l : list A) : list A :=
  firstn (length l - n) l.

(** [len(l)] *)
Definition len {A : Type} (l : list A) : Z := Z.of_nat (length l).

End Py.

(** ** Trees

    [tree.Tree(node, children)] is a list of children with a label; a child
    is a sub-tree or a [(tag, word)] tuple.  The tag is [itmType], which is
    [None] until the first bracket is opened. *)

Inductive tree : Type :=
| Tree (node : string) (kids : list child)
with child : Type :=
| Leaf (tag : option string) (word : string)
| Sub (t : tree).

(** [t.append(c)] *)
Definition append (t : tree) (c : child) : tree :=
  match t with Tree n ks => Tree n (ks ++ [c]) end.

(** Leaves of a tree, depth first, left to right. *)
Fixpoint leaves (t : tree) : list (option string * string) :=
  match t with
  | Tree _ ks => flat_map leaves_child ks
  end
with leaves_child (c : child) : list (option string * string) :=
  match c with
  | Leaf a w => [(a, w)]
  | Sub t => leaves t
  end.

(** Number of chunk nodes below the root of a tree. *)
Fixpoint chunk_count (t : tree) : nat :=
  match t with
  | Tree _ ks => list_sum (map chunk_count_child ks)
  end
with chunk_count_child (c : child) : nat :=
  match c with
  | Leaf _ _ => 0
  | Sub t => S (chunk_count t)
  end.

(** ** The chunk policy and the scanner state *)

Record policy : Type := Policy {
  chunk_types : option (list string);
  top_node : string;
  partial_match : bool;
  collapse_partials : bool;
  cascade : bool
}.

Record state : Type := State {
  bracket : Z;
  itmType : option string;
  stack : list tree;
  inTag : list Z
}.

Definition L_BRACKET (c : ascii) : bool :=
  match c with
  | "("%char | "["%char | "{"%char | "<"%char => true
  | _ => false
  end.

Definition R_BRACKET (c : ascii) : bool :=
  match c with
  | ")"%char | "]"%char | "}"%char | ">"%char => true
  | _ => false
  end.

(** ** Operations on the frame stack *)

(** [stack[-1].append(c)] *)
Definition append_top (stack : list tree) (c : child) : result (list tree) :=
  match rev stack with
  | [] => Raise IndexError
  | top :: below => Ok (rev below ++ [append top c])
  end.

(** [stack[-1][-1].append(c)]: the last child of the top frame must itself
    be a tree. *)
Definition append_top_last (stack : list tree) (c : child) : result (list tree) :=
  match rev stack with
  | [] => Raise IndexError
  | Tree n ks :: below =>
      match rev ks with
      | [] => Raise IndexError
      | Leaf _ _ :: _ => Raise AttributeError
      | Sub t :: ks' => Ok (rev below ++ [Tree n (rev ks' ++ [Sub (append t c)])])
      end
  end.

(** [if len(stack) > 1: stack[-2].append(stack[-1]); stack = stack[:-1]] *)
Definition pop_frame (stack : list tree) : list tree :=
  match rev stack with
  | top :: parent :: below => rev below ++ [append parent (Sub top)]
  | _ => stack
  end.

(** ** Matching a label against the policy *)

(** The body of [for eachItm in chunk_types] (lines 358-363), threading
    [matched] and [itm]; there is no [break]. *)
Fixpoint partial_loop (collapse : bool) (cts : list string)
    (matched : bool) (itm : string) : bool * string :=
  match cts with
  | [] => (matched, itm)
  | eachItm :: rest =>
      if (String.length eachItm <=? String.length itm)%nat
         && String.eqb eachItm (Py.upto (String.length eachItm) itm)
      then partial_loop collapse rest true (if collapse then eachItm else itm)
      else partial_loop collapse rest matched itm
  end.

Definition match_label (pol : policy) (itm : string) : result (bool * string) :=
  if partial_match pol then
    match chunk_types pol with
    | None => Raise TypeError
    | Some cts => Ok (partial_loop (collapse_partials pol) cts false itm)
    end
  else
    match chunk_types pol with
    | None => Ok (false, itm)
    | Some cts => Ok (existsb (String.eqb itm) cts, itm)
    end.

(** ** One token of the scan *)

(** The branch [if L_BRACKET.match(itm[0])] (lines 353-377): returns the
    new state and the rebound [itm]. *)
Definition open_bracket (pol : policy) (st : state) (tok : string)
  : result (state * string) :=
  let bracket := (bracket st + 1)%Z in
  let itm := Py.tail tok in
  '(matched, itm) <- match_label pol itm ;;
  '(stack, inTag) <-
    (if matched then
       let chunk := Tree itm [] in
       if cascade pol then Ok (stack st ++ [chunk], inTag st ++ [bracket])
       else
         match inTag st with
         | [] => stack' <- append_top (stack st) (Sub chunk) ;;
                 Ok (stack', inTag st ++ [bracket])
         | _ :: _ => Ok (stack st, inTag st)
         end
     else Ok (stack st, inTag st)) ;;
  Ok (State bracket (Some itm) stack inTag, itm).

(** [len(inTag) > 0 and inTag[-1] <= bracket] *)
Definition marker_le (inTag : list Z) (bracket : Z) : bool :=
  match rev inTag with
  | [] => false
  | m :: _ => (m <=? bracket)%Z
  end.

(** The leaf attachment inside [if R_BRACKET.match(itm[-1])] (lines
    380-392); the guard [tmpItm != ""] compares a list with a string and is
    always true. *)
Definition attach_leaf (pol : policy) (st : state) (word : string) : result state :=
  let leaf := Leaf (itmType st) word in
  if marker_le (inTag st) (bracket st) then
    stack' <- (if cascade pol then append_top (stack st) leaf
               else append_top_last (stack st) leaf) ;;
    Ok (State (bracket st) (itmType st) stack' (inTag st))
  else
    let stack1 := if cascade pol then pop_frame (stack st) else stack st in
    stack' <- append_top stack1 leaf ;;
    Ok (State (bracket st) (itmType st) stack' (Py.drop_end 2 (inTag st))).

(** The loop [while len(inTag) > 0 and bracket < inTag[-1]] (lines
    394-399); each turn shortens [inTag], which is why it ends. *)
Equations? close_loop (casc : bool) (b : Z) (stk : list tree) (tags : list Z)
  : list tree * list Z by wf (length tags) lt :=
  close_loop casc b stk [] := (stk, []);
  close_loop casc b stk (m :: ms) with (b <? List.last (m :: ms) m)%Z => {
    | false := (stk, m :: ms);
    | true := close_loop casc b (if casc then pop_frame stk else stk)
                         (Py.drop_end 2 (m :: ms)) }.
Proof.
  unfold Py.drop_end. rewrite length_firstn. simpl. lia.
Qed.

(** The branch [if R_BRACKET.match(itm[-1])]. *)
Definition close_bracket (pol : policy) (st : state) (itm : string) (sep : ascii)
  : result state :=
  let tmpItm := Py.split itm sep in
  word <- Py.head tmpItm ;;
  st1 <- attach_leaf pol st word ;;
  let bracket := (bracket st1 - (Py.len tmpItm - 1))%Z in
  let '(stack, inTag) := close_loop (cascade pol) bracket (stack st1) (inTag st1) in
  Ok (State bracket (itmType st1) stack inTag).

(** The body of [for itm in list(tokenize.whitespace(s))]. *)
Definition process_token (pol : policy) (st : state) (tok : string) : result state :=
  c <- Py.first tok ;;
  '(st1, itm) <- (if L_BRACKET c then open_bracket pol st tok else Ok (st, tok)) ;;
  d <- Py.final itm ;;
  if R_BRACKET d then close_bracket pol st1 itm d else Ok st1.

Fixpoint scan (pol : policy) (st : state) (toks : list string) : result state :=
  match toks with
  | [] => Ok st
  | tok :: rest => st' <- process_token pol st tok ;; scan pol st' rest
  end.

Definition init (pol : policy) : state :=
  State 0 None [Tree (top_node pol) []] [].

(** One turn of [for s in data]: the value yielded for a sentence. *)
Definition chunk_sentence (pol : policy) (toks : list string) : result (list tree) :=
  st <- scan pol (init pol) toks ;; Ok (stack st).

(** [_chunk_parse] over the tokenized sentences of the files: one stack is
    yielded per sentence. *)
Fixpoint _chunk_parse (pol : policy) (data : list (list string))
  : result (list (list tree)) :=
  match data with
  | [] => Ok []
  | s :: rest =>
      out <- chunk_sentence pol s ;;
      outs <- _chunk_parse pol rest ;;
      Ok (out :: outs)
  end.

(** ** What the scanner reads off the tokens

    The string-level part of [process_token], with the frame stack left
    out: how a token rebinds [itm] and [itmType], and which word it closes. *)

Definition rebind (pol : policy) (cur : option string) (tok : string)
  : result (option string * string) :=
  c <- Py.first tok ;;
  if L_BRACKET c then
    '(_, itm) <- match_label pol (Py.tail tok) ;; Ok (Some itm, itm)
  else Ok (cur, tok).

Definition closing_word (itm : string) : result (option string) :=
  d <- Py.final itm ;;
  if R_BRACKET d then w <- Py.head (Py.split itm d) ;; Ok (Some w)
  else Ok None.

(** The [(itmType, tmpItm[0])] pairs of the closing tokens, in order. *)
Fixpoint leaf_seq (pol : policy) (cur : option string) (toks : list string)
  : result (list (option string * string)) :=
  match toks with
  | [] => Ok []
  | tok :: rest =>
      '(cur', itm) <- rebind pol cur tok ;;
      w <- closing_word itm ;;
      ls <- leaf_seq pol cur' rest ;;
      Ok (match w with
          | Some w => (cur', w) :: ls
          | None => ls
          end)
  end.

(** Every closing token carries some text. *)
Definition words_nonempty (ls : list (option string * string)) : bool :=
  forallb (fun p => negb (String.eqb (snd p) "")) ls.

Definition leaf_of (p : option string * string) : child :=
  Leaf (fst p) (snd p).

(** All leaves held by the frames of a stack, bottom frame first. *)
Definition stack_leaves (stk : list tree) : list (option string * string) :=
  flat_map leaves stk.

(** The stack is the single root frame. *)
Definition single_root (pol : policy) (st : state) : Prop :=
  exists ks, stack st = [Tree (top_node pol) ks].

(** ** Readable tokens and the safety invariant

    A token is not empty, and what follows its opening bracket (or the whole
    token when it opens nothing) does not start with a closing bracket: a
    label or a word is there.  Under [partial_match] the chunk types must be
    a sequence, and labels of the same shape when they replace a label. *)

Definition label_ok (itm : string) : bool :=
  match itm with
  | EmptyString => false
  | String c _ => negb (R_BRACKET c)
  end.

Definition token_ok (tok : string) : bool :=
  match tok with
  | EmptyString => false
  | String c r => if L_BRACKET c then label_ok r else label_ok tok
  end.

Definition policy_ok (pol : policy) : bool :=
  if partial_match pol then
    match chunk_types pol with
    | None => false
    | Some cts => negb (collapse_partials pol) || forallb label_ok cts
    end
  else true.

(** [safe]: the stack is never empty, and without cascading an open chunk
    (a marker in [inTag]) is the last child of the top frame. *)

Definition safe (pol : policy) (st : state) : Prop :=
  stack st <> [] /\
  (cascade pol = false ->
   inTag st = [] \/
   exists m s0 n ks t,
     inTag st = [m] /\ stack st = s0 ++ [Tree n (ks ++ [Sub t])]).

(** ** The sentence as written

    Notions of the specification, read off the written tokens alone: bracket
    balance, and the terminals [(tag, token)] where the tag is the label of
    the nearest enclosing bracket when the terminal is closed. *)

Module Spec.

(** Number of open brackets leading a token. *)
Fixpoint leading (s : string) : nat :=
  match s with
  | EmptyString => 0
  | String c r => if L_BRACKET c then S (leading r) else 0
  end.

(** A token without its trailing close brackets, and their number. *)
Fixpoint trailing (s : string) : string * nat :=
  match s with
  | EmptyString => (EmptyString, 0)
  | String c r =>
      let '(t, k) := trailing r in
      if String.eqb t "" && R_BRACKET c then (EmptyString, S k)
      else (String c t, k)
  end.

Fixpoint unbracket (n : nat) (s : string) : string :=
  match n, s with
  | S n', String _ r => unbracket n' r
  | _, _ => s
  end.

(** The text of a token between its brackets. *)
Definition body (tok : string) : string :=
  fst (trailing (unbracket (leading tok) tok)).

Fixpoint balanced_from (depth : nat) (toks : list string) : bool :=
  match toks with
  | [] => (depth =? 0)%nat
  | tok :: rest =>
      let d := depth + leading tok in
      let k := snd (trailing tok) in
      (k <=? d)%nat && balanced_from (d - k) rest
  end.

Definition balanced (toks : list string) : bool := balanced_from 0 toks.

(** [open] holds the labels of the brackets still open, innermost
    first. *)
Fixpoint terminals_from (open : list string) (toks : list string)
  : list (option string * string) :=
  match toks with
  | [] => []
  | tok :: rest =>
      let k := snd (trailing tok) in
      if (0 <? leading tok)%nat then
        terminals_from (skipn k (body tok :: open)) rest
      else if (k =? 0)%nat then terminals_from open rest
      else (hd_error open, body tok) :: terminals_from (skipn k open) rest
  end.

Definition terminals (toks : list string) : list (option string * string) :=
  terminals_from [] toks.


(** The closed set of formats. *)
Definition formats : list string :=
  ["raw"; "tokenized"; "tagged"; "chunked"; "parsed"; "parsed-no-pos"].

End Spec.

(** ** Stripping annotation nodes *)

Module Re.

Definition newline : ascii := ascii_of_nat 10.

Definition digit (c : ascii) : bool :=
  let n := nat_of_ascii c in (48 <=? n)%nat && (n <=? 57)%nat.

Fixpoint drop (n : nat) (s : string) : string :=
  match n, s with
  | S n', String _ r => drop n' r
  | _, _ => s
  end.

(** [re.sub(m, '', s)]: the leftmost match at each position is deleted;
    [skip] counts the characters of a match still to be dropped. *)
Fixpoint sub_from (m : string -> option nat) (skip : nat) (s : string) : string :=
  match s with
  | EmptyString => EmptyString
  | String c r =>
      match skip with
      | S k => sub_from m k r
      | O =>
          match m s with
          | Some (S k) => sub_from m k r
          | _ => String c (sub_from m 0 r)
          end
      end
  end.

Definition sub (m : string -> option nat) (s : string) : string :=
  sub_from m 0 s.

(** Length of a match of [[^\)]*\)]. *)
Fixpoint upto_rparen (s : string) : option nat :=
  match s with
  | EmptyString => None
  | String c r =>
      if Ascii.eqb c ")" then Some 1 else option_map S (upto_rparen r)
  end.

(** The pattern [\((CODE|ID)[^\)]*\)] of [YCOEParseCorpusReader._parse]. *)
Definition node_pattern (s : string) : option nat :=
  if String.prefix "(CODE" s then
    option_map (Nat.add 5) (upto_rparen (drop 5 s))
  else if String.prefix "(ID" s then
    option_map (Nat.add 3) (upto_rparen (drop 3 s))
  else None.

(** Length of the greedy match of [.*\)]: up to the last close bracket
    of the line. *)
Fixpoint greedy_rparen (s : string) : option nat :=
  match s with
  | EmptyString => None
  | String c r =>
      if Ascii.eqb c newline then None
      else match greedy_rparen r with
           | Some n => Some (S n)
           | None => if Ascii.eqb c ")" then Some 1 else None
           end
  end.

(** Length of the greedy match of [.*\d\)]. *)
Fixpoint greedy_digit_rparen (s : string) : option nat :=
  match s with
  | EmptyString => None
  | String c r =>
      if Ascii.eqb c newline then None
      else match greedy_digit_rparen r with
           | Some n => Some (S n)
           | None =>
               match r with
               | String d _ =>
                   if digit c && Ascii.eqb d ")" then Some 2 else None
               | EmptyString => None
               end
           end
  end.

(** The verbose pattern of the module-level [_parse]; white space in a
    verbose pattern is not part of it, so it reads
    [\(CODE.*\)|\(ID.*\d\)]. *)
Definition rx_pattern (s : string) : option nat :=
  match (if String.prefix "(CODE" s
         then option_map (Nat.add 5) (greedy_rparen (drop 5 s))
         else None) with
  | Some n => Some n
  | None =>
      if String.prefix "(ID" s
      then option_map (Nat.add 3) (greedy_digit_rparen (drop 3 s))
      else None
  end.

End Re.

(** The first statement of the module-level [_parse]. *)
Definition strip_annotations (s : string) : string := Re.sub Re.rx_pattern s.

Section ParseReader.

(** [BracketParseCorpusReader._parse], defined outside these files. *)
Context {T : Type}.
Variable BracketParseCorpusReader__parse : string -> result T.

(** [YCOEParseCorpusReader._parse]: [s] is computed and [t] is passed
    on. *)
Definition YCOEParseCorpusReader__parse (t : string) : result T :=
  let s := Re.sub Re.node_pattern t in
  BracketParseCorpusReader__parse t.

End ParseReader.

(** ** The format dispatchers *)

(** [find_corpus_file(dir, item, ext)] *)
Inductive corpus_file : Type :=
| CorpusFile (dir item : string) (ext : option string).

Module Treebank.

Inductive block_reader : Type :=
| read_parsed_tb_block
| read_chunked_tb_block
| read_tagged_tb_block
| read_tokenized_tb_block.

Inductive contents : Type :=
| StreamBackedCorpusView (f : corpus_file) (r : block_reader)
| FileText (f : corpus_file).

(** [read_document] (treebank.py, lines 86-106). *)
Definition read_document (item format : string) : result contents :=
  if String.eqb format "parsed" then
    Ok (StreamBackedCorpusView
          (CorpusFile "treebank/combined" item (Some ".mrg")) read_parsed_tb_block)
  else if String.eqb format "parsed-no-pos" then
    Ok (StreamBackedCorpusView
          (CorpusFile "treebank/parsed" item (Some ".prd")) read_parsed_tb_block)
  else if String.eqb format "chunked" then
    Ok (StreamBackedCorpusView
          (CorpusFile "treebank/tagged" item (Some ".pos")) read_chunked_tb_block)
  else if String.eqb format "tagged" then
    Ok (StreamBackedCorpusView
          (CorpusFile "treebank/tagged" item (Some ".pos")) read_tagged_tb_block)
  else if String.eqb format "tokenized" then
    Ok (StreamBackedCorpusView
          (CorpusFile "treebank/raw" item None) read_tokenized_tb_block)
  else if String.eqb format "raw" then
    Ok (FileText (CorpusFile "treebank/parsed" item (Some ".prd")))
  else Raise ValueError.

End Treebank.

Module Ycoe.

Inductive conversion : Type :=
| string2words
| string2tags.

Inductive contents : Type :=
| FileText (f : corpus_file)
| Converted (item : string) (conv : conversion)
| ChunkParse (item : string) (pol : policy)
| BracketParse (f : corpus_file).

(** [read_document] (ycoe.py, lines 274-288) for an [item] that is not a
    list. *)
Definition read_document (item format : string) (pol : policy) : result contents :=
  if String.eqb format "raw" then
    Ok (FileText (CorpusFile "ycoe/psd" item (Some ".psd")))
  else if String.eqb format "tokenized" then Ok (Converted item string2words)
  else if String.eqb format "tagged" then Ok (Converted item string2tags)
  else if String.eqb format "chunked" then Ok (ChunkParse item pol)
  else if String.eqb format "parsed" then
    Ok (BracketParse (CorpusFile "ycoe/psd" item (Some ".psd")))
  else Raise ValueError.

(** The formats the YCOE dispatcher knows. *)
Definition formats : list string :=
  ["raw"; "tokenized"; "tagged"; "chunked"; "parsed"].

End Ycoe.

(** ** Shapes of the built trees and of the markers *)

Definition label (t : tree) : string :=
  match t with Tree n _ => n end.

Definition is_leaf (c : child) : bool :=
  match c with
  | Leaf _ _ => true
  | Sub _ => false
  end.

(** A leaf, or a chunk that holds leaves only. *)
Definition flat_child (c : child) : bool :=
  match c with
  | Leaf _ _ => true
  | Sub (Tree _ ks) => forallb is_leaf ks
  end.

(** The labels of the chunk nodes below the root of a tree, and of a frame
    with all the chunk nodes below it. *)
Fixpoint chunk_labels (t : tree) : list string :=
  match t with
  | Tree _ ks => flat_map chunk_labels_child ks
  end
with chunk_labels_child (c : child) : list string :=
  match c with
  | Leaf _ _ => []
  | Sub t => (match t with Tree n _ => n end) :: chunk_labels t
  end.

Definition frame_labels (t : tree) : list string :=
  label t :: chunk_labels t.

Definition stack_labels (stk : list tree) : list string :=
  flat_map frame_labels stk.

(** The label of the bottom frame of a stack. *)
Definition bottom_label (stk : list tree) : option string :=
  option_map label (hd_error stk).

(** The markers grow strictly towards the top and none exceeds the bracket
    depth. *)
Definition markers_inv (st : state) : Prop :=
  StronglySorted Z.lt (inTag st) /\
  Forall (fun m => (m <= bracket st)%Z) (inTag st).

(** There are fewer markers than frames, and at most one marker without
    cascading. *)
Definition markers_bounded (pol : policy) (stk : list tree) (tags : list Z)
  : Prop :=
  stk <> [] /\
  (cascade pol = true -> (length tags < length stk)%nat) /\
  (cascade pol = false -> (length tags <= 1)%nat).

(** An opening token whose label the policy does not match, or a token that
    opens nothing. *)
Definition unmatched (pol : policy) (tok : string) : bool :=
  match tok with
  | EmptyString => true
  | String c r =>
      if L_BRACKET c then
        match match_label pol r with
        | Ok (false, _) => true
        | _ => false
        end
      else true
  end.

(** A policy that never rebinds a label. *)
Definition plain (pol : policy) : bool :=
  negb (partial_match pol && collapse_partials pol).

(** ** Sentence segmentation: [_strip_spaces] and [_parse] *)

(** The class [\s] of a byte-string pattern. *)
Definition isspace (c : ascii) : bool :=
  let n := nat_of_ascii c in
  (n =? 32)%nat || ((9 <=? n)%nat && (n <=? 13)%nat).

Definition istab (c : ascii) : bool := (nat_of_ascii c =? 9)%nat.

Fixpoint all_space (s : string) : bool :=
  match s with
  | EmptyString => true
  | String c r => isspace c && all_space r
  end.

(** [re.sub(r'^\(', '', s)] *)
Definition sub_open (s : string) : string :=
  match s with
  | String "(" r => r
  | _ => s
  end.

(** [re.sub(r'\)\s*$', '', s)]: the match starts at the first close bracket
    that only white space follows, and runs to the end. *)
Fixpoint sub_close (s : string) : string :=
  match s with
  | EmptyString => EmptyString
  | String c r =>
      if Ascii.eqb c ")" && all_space r then EmptyString
      else String c (sub_close r)
  end.

(** [re.sub(r'^\s*', '', s)] *)
Fixpoint lstrip (s : string) : string :=
  match s with
  | EmptyString => EmptyString
  | String c r => if isspace c then lstrip r else s
  end.

(** [re.sub(r'\s*$', '', s)] *)
Fixpoint rstrip (s : string) : string :=
  match s with
  | EmptyString => EmptyString
  | String c r =>
      if isspace c && all_space r then EmptyString
      else String c (rstrip r)
  end.

(** [re.sub(p+, ' ', s)] for a character class [p]: every maximal run
    becomes one space; [inrun] says that the run has begun. *)
Fixpoint sub_runs (p : ascii -> bool) (inrun : bool) (s : string) : string :=
  match s with
  | EmptyString => EmptyString
  | String c r =>
      if p c then
        if inrun then sub_runs p true r
        else String " " (sub_runs p true r)
      else String c (sub_runs p false r)
  end.

(** [_strip_spaces] (ycoe.py, lines 318-330). *)
Definition _strip_spaces (s : string) : string :=
  let s := sub_open s in
  let s := sub_close s in
  let s := lstrip s in
  let s := rstrip s in
  let s := sub_runs istab false s in
  let s := sub_runs isspace false s in
  s.

(** No white space but single spaces between two other characters. *)
Fixpoint single_spaced (after_space : bool) (s : string) : bool :=
  match s with
  | EmptyString => negb after_space
  | String c r =>
      if isspace c then
        Ascii.eqb c " " && negb after_space && single_spaced true r
      else single_spaced false r
  end.

Definition normal (s : string) : bool :=
  match s with
  | EmptyString => true
  | String _ _ => single_spaced true s
  end.

(** No white space at all. *)
Fixpoint no_space (s : string) : bool :=
  match s with
  | EmptyString => true
  | String c r => negb (isspace c) && no_space r
  end.

(** [p] occurs in [s] as a substring. *)
Fixpoint occurs (p s : string) : bool :=
  String.prefix p s
  || match s with
     | EmptyString => false
     | String _ r => occurs p r
     end.

Section Parse.

(** The test [list(tokenize.regexp(sent, r'^\(')) != []] on a line; the
    tokenizer is not part of these files. *)
Variable opens_sentence : string -> bool.

(** [if fullPhrase != "": yield fullPhrase] after [_strip_spaces]. *)
Definition flush (fullPhrase : string) : list string :=
  let fullPhrase := _strip_spaces fullPhrase in
  if String.eqb fullPhrase "" then [] else [fullPhrase].

(** The loop [for sent in s] of [_parse] and the flush that follows it;
    the result lists what is yielded. *)
Fixpoint parse_lines (fullPhrase : string) (lines : list string) : list string :=
  match lines with
  | [] => flush fullPhrase
  | sent :: rest =>
      if opens_sentence sent then flush fullPhrase ++ parse_lines sent rest
      else parse_lines (fullPhrase ++ sent) rest
  end.

(** [_parse] (ycoe.py, lines 290-316). *)
Definition _parse (s : string) : list string :=
  let s := strip_annotations s in
  let s := Py.split s Re.newline in
  parse_lines "" s.

End Parse.

(** ** The combined reader and list requests *)

Record YCOECorpusReader : Type := Reader {
  _psd_items : list string;
  _pos_items : list string;
  items : list string
}.

(** [set(a) != set(b)] *)
Definition set_ne (a b : list string) : bool :=
  negb (forallb (fun x => existsb (String.eqb x) b) a
        && forallb (fun x => existsb (String.eqb x) a) b).

(** [YCOECorpusReader.__init__] (ycoe.py, lines 86-97), given the items the
    two sub-readers found. *)
Definition YCOECorpusReader__init__ (psd_items pos_items : list string)
  : result YCOECorpusReader :=
  if set_ne psd_items pos_items then Raise ValueError
  else Ok (Reader psd_items pos_items psd_items).

Section ReadList.

(** [concat] of [util], not part of these files. *)
Variable concat : list Ycoe.contents -> result Ycoe.contents.

(** The list comprehension [[read(doc, ...) for doc in item]]. *)
Fixpoint read_each (docs : list string) (format : string) (pol : policy)
  : result (list Ycoe.contents) :=
  match docs with
  | [] => Ok []
  | doc :: rest =>
      c <- Ycoe.read_document doc format pol ;;
      cs <- read_each rest format pol ;;
      Ok (c :: cs)
  end.

(** [read_document] (ycoe.py, lines 270-273) for an [item] that is a
    list. *)
Definition read_document_list (docs : list string) (format : string)
    (pol : policy) : result Ycoe.contents :=
  cs <- read_each docs format pol ;; concat cs.

End ReadList.

(** * Properties *)

(** ** The error monad *)

Lemma bind_ok {A B : Type} (r : result A) (k : A -> result B) (b : B) :
  bind r k = Ok b -> exists a, r = Ok a /\ k a = Ok b.
Proof.
  destruct r as [a|e]; simpl; intros H.
  - exists a. split; [reflexivity | exact H].
  - discriminate H.
Qed.

Ltac inv_bind H :=
  let a := fresh "a" in
  let Ha := fresh "Ha" in
  apply bind_ok in H; destruct H as (a & Ha & H).

(** ** Lists seen from their last element *)

Lemma snoc_cases {A : Type} (l : list A) :
  l = [] \/ exists l' x, l = l' ++ [x].
Proof.
  destruct l as [|y l'] using rev_ind.
  - left. reflexivity.
  - right. exists l', y. reflexivity.
Qed.

Lemma rev_cons_snoc {A : Type} (l : list A) (x : A) (r : list A) :
  rev l = x :: r -> l = rev r ++ [x].
Proof.
  intros H. rewrite <- (rev_involutive l), H. reflexivity.
Qed.

Lemma rev_nil_inv {A : Type} (l : list A) : rev l = [] -> l = [].
Proof.
  intros H. rewrite <- (rev_involutive l), H. reflexivity.
Qed.

Lemma drop_end_length {A : Type} (n : nat) (l : list A) :
  length (Py.drop_end n l) = length l - n.
Proof.
  unfold Py.drop_end. rewrite length_firstn. lia.
Qed.

Lemma drop_end_short {A : Type} (n : nat) (l : list A) :
  length l <= n -> Py.drop_end n l = [].
Proof.
  intros H. apply length_zero_iff_nil. rewrite drop_end_length. lia.
Qed.

(** ** The frame stack *)

Lemma append_top_snoc (s : list tree) (t : tree) (c : child) :
  append_top (s ++ [t]) c = Ok (s ++ [append t c]).
Proof.
  unfold append_top. rewrite rev_unit, rev_involutive. reflexivity.
Qed.

Lemma append_top_inv (s s' : list tree) (c : child) :
  append_top s c = Ok s' ->
  exists s0 t, s = s0 ++ [t] /\ s' = s0 ++ [append t c].
Proof.
  unfold append_top. destruct (rev s) as [|t r] eqn:E; intros H.
  - discriminate H.
  - injection H as <-. exists (rev r), t. split.
    + apply rev_cons_snoc, E.
    + reflexivity.
Qed.

Lemma append_top_last_snoc (s : list tree) (n : string) (ks : list child)
    (t : tree) (c : child) :
  append_top_last (s ++ [Tree n (ks ++ [Sub t])]) c
  = Ok (s ++ [Tree n (ks ++ [Sub (append t c)])]).
Proof.
  unfold append_top_last. rewrite rev_unit, rev_unit, !rev_involutive.
  reflexivity.
Qed.

Lemma append_top_last_inv (s s' : list tree) (c : child) :
  append_top_last s c = Ok s' ->
  exists s0 n ks t,
    s = s0 ++ [Tree n (ks ++ [Sub t])] /\
    s' = s0 ++ [Tree n (ks ++ [Sub (append t c)])].
Proof.
  unfold append_top_last. destruct (rev s) as [|[n ks] r] eqn:E; intros H.
  - discriminate H.
  - destruct (rev ks) as [|[a w|t] ks'] eqn:Ek; try discriminate H.
    injection H as <-. exists (rev r), n, (rev ks'), t. split.
    + apply rev_cons_snoc in E. apply rev_cons_snoc in Ek.
      rewrite E, Ek. reflexivity.
    + reflexivity.
Qed.

Lemma pop_frame_two (s : list tree) (p t : tree) :
  pop_frame (s ++ [p; t]) = s ++ [append p (Sub t)].
Proof.
  unfold pop_frame.
  replace (s ++ [p; t]) with ((s ++ [p]) ++ [t])
    by (rewrite <- app_assoc; reflexivity).
  rewrite rev_unit, rev_unit, rev_involutive. reflexivity.
Qed.

Lemma pop_frame_cases (s : list tree) :
  (length s <= 1 /\ pop_frame s = s) \/
  exists s0 p t, s = s0 ++ [p; t] /\ pop_frame s = s0 ++ [append p (Sub t)].
Proof.
  destruct (snoc_cases s) as [->|(s1 & t & ->)].
  - left. split; [simpl; lia | reflexivity].
  - destruct (snoc_cases s1) as [->|(s0 & p & ->)].
    + left. split; [simpl; lia | reflexivity].
    + right. exists s0, p, t. rewrite <- app_assoc. simpl. split.
      * reflexivity.
      * apply pop_frame_two.
Qed.

Lemma pop_frame_nonempty (s : list tree) : s <> [] -> pop_frame s <> [].
Proof.
  intros Hs. destruct (pop_frame_cases s) as [[_ ->]|(s0 & p & t & _ & ->)].
  - exact Hs.
  - destruct s0; discriminate.
Qed.

(** ** Leaves *)

Lemma leaves_append (t : tree) (c : child) :
  leaves (append t c) = leaves t ++ leaves_child c.
Proof.
  destruct t as [n ks]. simpl. rewrite flat_map_app. simpl.
  rewrite app_nil_r. reflexivity.
Qed.

Lemma stack_leaves_app (s1 s2 : list tree) :
  stack_leaves (s1 ++ s2) = stack_leaves s1 ++ stack_leaves s2.
Proof.
  apply flat_map_app.
Qed.

Lemma stack_leaves_one (t : tree) : stack_leaves [t] = leaves t.
Proof.
  unfold stack_leaves. simpl. apply app_nil_r.
Qed.

Lemma stack_leaves_append_top (s s' : list tree) (c : child) :
  append_top s c = Ok s' ->
  stack_leaves s' = stack_leaves s ++ leaves_child c.
Proof.
  intros H. apply append_top_inv in H. destruct H as (s0 & t & -> & ->).
  rewrite !stack_leaves_app, !stack_leaves_one, leaves_append.
  apply app_assoc.
Qed.

Lemma stack_leaves_append_top_last (s s' : list tree) (c : child) :
  append_top_last s c = Ok s' ->
  stack_leaves s' = stack_leaves s ++ leaves_child c.
Proof.
  intros H. apply append_top_last_inv in H.
  destruct H as (s0 & n & ks & t & -> & ->).
  rewrite !stack_leaves_app, !stack_leaves_one. simpl.
  rewrite !flat_map_app. simpl. rewrite leaves_append, !app_nil_r.
  rewrite <- !app_assoc. reflexivity.
Qed.

Lemma stack_leaves_pop_frame (s : list tree) :
  stack_leaves (pop_frame s) = stack_leaves s.
Proof.
  destruct (pop_frame_cases s) as [[_ ->]|(s0 & p & t & -> & ->)].
  - reflexivity.
  - rewrite !stack_leaves_app. f_equal.
    unfold stack_leaves. simpl. rewrite leaves_append, !app_nil_r.
    reflexivity.
Qed.

Lemma stack_leaves_close_loop (casc : bool) (b : Z) (stk : list tree)
    (tags : list Z) :
  stack_leaves (fst (close_loop casc b stk tags)) = stack_leaves stk.
Proof.
  funelim (close_loop casc b stk tags); try reflexivity.
  match goal with
  | IH : stack_leaves _ = stack_leaves _ |- _ => rewrite IH
  end.
  destruct casc.
  - apply stack_leaves_pop_frame.
  - reflexivity.
Qed.

(** ** One token: what it reads and where the leaf goes *)

Lemma open_bracket_inv (pol : policy) (st st1 : state) (tok itm : string) :
  open_bracket pol st tok = Ok (st1, itm) ->
  exists matched,
    match_label pol (Py.tail tok) = Ok (matched, itm) /\
    itmType st1 = Some itm /\
    bracket st1 = (bracket st + 1)%Z /\
    stack_leaves (stack st1) = stack_leaves (stack st).
Proof.
  unfold open_bracket. intros H.
  inv_bind H. destruct a as [matched itm'].
  inv_bind H. destruct a as [stk tags].
  injection H as <- <-. exists matched. simpl.
  repeat split; try assumption.
  destruct matched.
  - destruct (cascade pol).
    + injection Ha0 as <- _. rewrite stack_leaves_app. apply app_nil_r.
    + destruct (inTag st).
      * inv_bind Ha0. injection Ha0 as <- _.
        apply stack_leaves_append_top in Ha1. rewrite Ha1. apply app_nil_r.
      * injection Ha0 as <- _. reflexivity.
  - injection Ha0 as <- _. reflexivity.
Qed.

Lemma attach_leaf_inv (pol : policy) (st st1 : state) (w : string) :
  attach_leaf pol st w = Ok st1 ->
  itmType st1 = itmType st /\
  bracket st1 = bracket st /\
  stack_leaves (stack st1) = stack_leaves (stack st) ++ [(itmType st, w)].
Proof.
  unfold attach_leaf. intros H.
  destruct (marker_le (inTag st) (bracket st)).
  - inv_bind H. injection H as <-. simpl. repeat split.
    destruct (cascade pol).
    + apply stack_leaves_append_top in Ha. exact Ha.
    + apply stack_leaves_append_top_last in Ha. exact Ha.
  - inv_bind H. injection H as <-. simpl. repeat split.
    apply stack_leaves_append_top in Ha. rewrite Ha.
    destruct (cascade pol).
    + rewrite stack_leaves_pop_frame. reflexivity.
    + reflexivity.
Qed.

Lemma close_bracket_inv (pol : policy) (st st' : state) (itm : string)
    (d : ascii) :
  close_bracket pol st itm d = Ok st' ->
  exists w,
    Py.head (Py.split itm d) = Ok w /\
    itmType st' = itmType st /\
    stack_leaves (stack st') = stack_leaves (stack st) ++ [(itmType st, w)].
Proof.
  unfold close_bracket. intros H.
  inv_bind H. rename a into w. inv_bind H. rename a into st1.
  apply attach_leaf_inv in Ha0. destruct Ha0 as (Ht & _ & Hl).
  destruct (close_loop _ _ _ _) as [stk tags] eqn:E.
  injection H as <-. simpl. exists w. repeat split; try assumption.
  rewrite <- Hl.
  change stk with (fst (stk, tags)). rewrite <- E.
  apply stack_leaves_close_loop.
Qed.

Lemma process_token_inv (pol : policy) (st st' : state) (tok : string) :
  process_token pol st tok = Ok st' ->
  exists itm w,
    rebind pol (itmType st) tok = Ok (itmType st', itm) /\
    closing_word itm = Ok w /\
    stack_leaves (stack st')
    = stack_leaves (stack st)
      ++ match w with
         | Some w => [(itmType st', w)]
         | None => []
         end.
Proof.
  unfold process_token, rebind, closing_word. intros H.
  inv_bind H. rename a into c. rewrite Ha. simpl.
  inv_bind H. destruct a as [st1 itm].
  inv_bind H. rename a into d.
  assert (Hopen : (if L_BRACKET c
                   then '(_, itm0) <- match_label pol (Py.tail tok) ;;
                        Ok (Some itm0, itm0)
                   else Ok (itmType st, tok)) = Ok (itmType st1, itm)
                  /\ stack_leaves (stack st1) = stack_leaves (stack st)).
  { destruct (L_BRACKET c).
    - apply open_bracket_inv in Ha0.
      destruct Ha0 as (matched & Hm & Ht & _ & Hl).
      rewrite Hm, Ht. simpl. split; [reflexivity | exact Hl].
    - injection Ha0 as <- <-. split; reflexivity. }
  destruct Hopen as [Hopen Hl].
  exists itm. rewrite Ha1. simpl.
  destruct (R_BRACKET d).
  - apply close_bracket_inv in H. destruct H as (w & Hw & Ht & Hl').
    exists (Some w). rewrite Hw, Ht. simpl. repeat split.
    + exact Hopen.
    + rewrite Hl', Hl. reflexivity.
  - injection H as <-. exists None. repeat split.
    + exact Hopen.
    + rewrite Hl. symmetry. apply app_nil_r.
Qed.

Lemma scan_leaves (pol : policy) (toks : list string) :
  forall st st',
    scan pol st toks = Ok st' ->
    exists ls,
      leaf_seq pol (itmType st) toks = Ok ls /\
      stack_leaves (stack st') = stack_leaves (stack st) ++ ls.
Proof.
  induction toks as [|tok rest IH]; simpl; intros st st' H.
  - injection H as <-. exists []. split; [reflexivity|].
    symmetry. apply app_nil_r.
  - inv_bind H. rename a into st1.
    apply process_token_inv in Ha. destruct Ha as (itm & w & Hr & Hw & Hl).
    apply IH in H. destruct H as (ls & Hs & Hl').
    rewrite Hr. simpl. rewrite Hw. simpl. rewrite Hs. simpl.
    eexists. split; [reflexivity|].
    rewrite Hl', Hl, <- app_assoc. destruct w; reflexivity.
Qed.

(** ** The scan raises only where reading a token raises *)

Lemma safe_init (pol : policy) : safe pol (init pol).
Proof.
  split.
  - discriminate.
  - intros _. left. reflexivity.
Qed.

Lemma append_top_total (s : list tree) (c : child) :
  s <> [] -> exists s', append_top s c = Ok s' /\ s' <> [].
Proof.
  intros Hs. destruct (snoc_cases s) as [->|(s0 & t & ->)].
  - contradiction.
  - rewrite append_top_snoc. eexists. split; [reflexivity|].
    destruct s0; discriminate.
Qed.

Lemma close_loop_flat (casc : bool) (b : Z) (stk : list tree) (tags : list Z) :
  casc = false -> fst (close_loop casc b stk tags) = stk.
Proof.
  funelim (close_loop casc b stk tags); intros Hc; try reflexivity.
  subst casc. match goal with IH : _ -> fst _ = _ |- _ => apply IH end.
  reflexivity.
Qed.

Lemma close_loop_nonempty (casc : bool) (b : Z) (stk : list tree)
    (tags : list Z) :
  stk <> [] -> fst (close_loop casc b stk tags) <> [].
Proof.
  funelim (close_loop casc b stk tags); intros Hs; try exact Hs.
  match goal with IH : _ -> fst _ <> [] |- _ => apply IH end.
  destruct casc; [apply pop_frame_nonempty|]; exact Hs.
Qed.

Lemma close_loop_short (casc : bool) (b : Z) (stk : list tree)
    (tags : list Z) :
  length tags <= 1 ->
  snd (close_loop casc b stk tags) = tags \/
  snd (close_loop casc b stk tags) = [].
Proof.
  funelim (close_loop casc b stk tags); intros Hlen.
  - left. reflexivity.
  - right. rewrite drop_end_short by (simpl in *; lia).
    simp close_loop. reflexivity.
  - left. reflexivity.
Qed.

Lemma open_bracket_total (pol : policy) (st : state) (tok itm : string)
    (matched : bool) :
  safe pol st ->
  match_label pol (Py.tail tok) = Ok (matched, itm) ->
  exists st1, open_bracket pol st tok = Ok (st1, itm) /\ safe pol st1.
Proof.
  intros [Hne Hflat] Hm. unfold open_bracket. rewrite Hm. simpl.
  destruct matched.
  - destruct (cascade pol) eqn:Hc.
    + simpl. eexists. split; [reflexivity|]. split; simpl.
      * destruct (stack st); discriminate.
      * intros Hf. rewrite Hc in Hf. discriminate Hf.
    + destruct (inTag st) as [|m0 tags] eqn:Ht.
      * destruct (snoc_cases (stack st)) as [E|(s0 & [n ks] & E)];
          [contradiction|].
        rewrite E, append_top_snoc. simpl.
        eexists. split; [reflexivity|]. split; simpl.
        -- destruct s0; discriminate.
        -- intros _. right. exists (bracket st + 1)%Z, s0, n, ks, (Tree itm []).
           split; reflexivity.
      * simpl. eexists. split; [reflexivity|]. split; simpl.
        -- exact Hne.
        -- intros _. apply Hflat. reflexivity.
  - simpl. eexists. split; [reflexivity|]. split; simpl.
    + exact Hne.
    + exact Hflat.
Qed.

Lemma marker_le_nonempty (tags : list Z) (b : Z) :
  marker_le tags b = true -> tags <> [].
Proof.
  intros H ->. discriminate H.
Qed.

Lemma attach_leaf_total (pol : policy) (st : state) (w : string) :
  safe pol st ->
  exists st1, attach_leaf pol st w = Ok st1 /\ safe pol st1.
Proof.
  intros [Hne Hflat]. unfold attach_leaf.
  destruct (marker_le (inTag st) (bracket st)) eqn:Hle.
  - destruct (cascade pol) eqn:Hc.
    + destruct (append_top_total (stack st) (Leaf (itmType st) w) Hne)
        as (s' & Hs' & Hne').
      rewrite Hs'. simpl. eexists. split; [reflexivity|]. split; simpl.
      * exact Hne'.
      * intros Hf. rewrite Hc in Hf. discriminate Hf.
    + destruct (Hflat eq_refl) as [E|(m & s0 & n & ks & t & Et & Es)].
      * apply marker_le_nonempty in Hle. contradiction.
      * rewrite Es, append_top_last_snoc. simpl.
        eexists. split; [reflexivity|]. split; simpl.
        -- destruct s0; discriminate.
        -- intros _. right. exists m, s0, n, ks, (append t (Leaf (itmType st) w)).
           split; [exact Et | reflexivity].
  - set (stk1 := if cascade pol then pop_frame (stack st) else stack st).
    assert (Hne1 : stk1 <> []).
    { unfold stk1. destruct (cascade pol);
        [apply pop_frame_nonempty|]; exact Hne. }
    destruct (append_top_total stk1 (Leaf (itmType st) w) Hne1)
      as (s' & Hs' & Hne').
    rewrite Hs'. simpl. eexists. split; [reflexivity|]. split; simpl.
    + exact Hne'.
    + intros Hf. left. apply drop_end_short.
      destruct (Hflat Hf) as [->|(m & _ & _ & _ & _ & -> & _)]; simpl; lia.
Qed.

Lemma close_bracket_total (pol : policy) (st : state) (itm w : string)
    (d : ascii) :
  safe pol st ->
  Py.head (Py.split itm d) = Ok w ->
  exists st', close_bracket pol st itm d = Ok st' /\ safe pol st'.
Proof.
  intros Hsafe Hw. unfold close_bracket. rewrite Hw. simpl.
  destruct (attach_leaf_total pol st w Hsafe) as (st1 & H1 & [Hne Hflat]).
  rewrite H1. simpl.
  destruct (close_loop _ _ _ _) as [stk tags] eqn:E.
  eexists. split; [reflexivity|]. split; simpl.
  - change stk with (fst (stk, tags)). rewrite <- E.
    apply close_loop_nonempty, Hne.
  - intros Hf.
    assert (Hstk : stk = stack st1).
    { change stk with (fst (stk, tags)). rewrite <- E.
      apply close_loop_flat, Hf. }
    assert (Htags : tags = inTag st1 \/ tags = []).
    { change tags with (snd (stk, tags)). rewrite <- E.
      apply close_loop_short.
      destruct (Hflat Hf) as [->|(m & _ & _ & _ & _ & -> & _)]; simpl; lia. }
    destruct Htags as [->| ->].
    + rewrite Hstk. apply Hflat, Hf.
    + left. reflexivity.
Qed.

Lemma process_token_total (pol : policy) (st : state) (tok itm : string)
    (cur : option string) (w : option string) :
  safe pol st ->
  rebind pol (itmType st) tok = Ok (cur, itm) ->
  closing_word itm = Ok w ->
  exists st', process_token pol st tok = Ok st' /\ safe pol st'.
Proof.
  intros Hsafe Hr Hw. unfold process_token.
  unfold rebind in Hr. inv_bind Hr. rename a into c. rewrite Ha. simpl.
  unfold closing_word in Hw. inv_bind Hw. rename a into d.
  assert (H1 : exists st1,
             (if L_BRACKET c then open_bracket pol st tok else Ok (st, tok))
             = Ok (st1, itm) /\ safe pol st1).
  { destruct (L_BRACKET c).
    - inv_bind Hr. destruct a as [matched itm']. injection Hr as _ <-.
      apply (open_bracket_total pol st tok itm' matched Hsafe Ha1).
    - injection Hr as _ <-. exists st. split; [reflexivity | exact Hsafe]. }
  destruct H1 as (st1 & -> & Hsafe1). simpl. rewrite Ha0. simpl.
  destruct (R_BRACKET d).
  - inv_bind Hw. apply (close_bracket_total pol st1 itm a d Hsafe1 Ha1).
  - exists st1. split; [reflexivity | exact Hsafe1].
Qed.

Lemma scan_total (pol : policy) (toks : list string) :
  forall st ls,
    safe pol st ->
    leaf_seq pol (itmType st) toks = Ok ls ->
    exists st', scan pol st toks = Ok st' /\ safe pol st'.
Proof.
  induction toks as [|tok rest IH]; simpl; intros st ls Hsafe H.
  - exists st. split; [reflexivity | exact Hsafe].
  - inv_bind H. destruct a as [cur itm]. inv_bind H. rename a into w.
    inv_bind H. rename a into ls'.
    destruct (process_token_total pol st tok itm cur w Hsafe Ha Ha0)
      as (st1 & H1 & Hsafe1).
    rewrite H1. simpl.
    apply process_token_inv in H1. destruct H1 as (itm' & w' & Hr & _ & _).
    rewrite Ha in Hr. injection Hr as -> _.
    apply (IH st1 ls' Hsafe1 Ha1).
Qed.

(** ** Tokens that can be read *)

Lemma final_total (s : string) :
  s <> EmptyString -> exists d, Py.final s = Ok d.
Proof.
  induction s as [|c r IH]; intros Hs.
  - contradiction.
  - destruct r as [|c' r'].
    + exists c. reflexivity.
    + destruct IH as (d & Hd); [discriminate|].
      exists d. simpl in *. exact Hd.
Qed.

Lemma split_nonempty (s : string) (sep : ascii) : Py.split s sep <> [].
Proof.
  destruct s as [|c r]; simpl.
  - discriminate.
  - destruct (Ascii.eqb c sep); [discriminate|].
    destruct (Py.split r sep); discriminate.
Qed.

Lemma split_head_word (c : ascii) (r : string) (sep : ascii) :
  Ascii.eqb c sep = false ->
  exists h t, Py.split (String c r) sep = String c h :: t.
Proof.
  intros Hc. simpl. rewrite Hc.
  destruct (Py.split r sep) as [|h t] eqn:E.
  - exists EmptyString, []. reflexivity.
  - exists h, t. reflexivity.
Qed.

Lemma closing_word_total (itm : string) :
  label_ok itm = true ->
  exists w, closing_word itm = Ok w /\
            forall x, w = Some x -> x <> EmptyString.
Proof.
  intros Hok. unfold closing_word.
  destruct itm as [|c r]; [discriminate Hok|]. simpl in Hok.
  destruct (final_total (String c r)) as (d & Hd); [discriminate|].
  rewrite Hd. cbn [bind]. destruct (R_BRACKET d) eqn:Hr.
  - assert (Hcd : Ascii.eqb c d = false).
    { destruct (Ascii.eqb c d) eqn:E; [|reflexivity].
      apply Ascii.eqb_eq in E. subst d. rewrite Hr in Hok. discriminate Hok. }
    destruct (split_head_word c r d Hcd) as (h & t & ->). simpl.
    eexists. split; [reflexivity|]. intros x Hx. injection Hx as <-.
    discriminate.
  - exists None. split; [reflexivity|]. intros x Hx. discriminate Hx.
Qed.

Lemma partial_loop_label (collapse : bool) (cts : list string) :
  forall matched itm,
    snd (partial_loop collapse cts matched itm) = itm \/
    (collapse = true /\ In (snd (partial_loop collapse cts matched itm)) cts).
Proof.
  induction cts as [|e rest IH]; simpl; intros matched itm.
  - left. reflexivity.
  - destruct ((String.length e <=? String.length itm)%nat
              && String.eqb e (Py.upto (String.length e) itm)).
    + destruct collapse.
      * right. split; [reflexivity|].
        destruct (IH true e) as [->|[_ Hin]]; [left; reflexivity|].
        right. exact Hin.
      * left. destruct (IH true itm) as [H|[H _]]; [exact H | discriminate H].
    + destruct (IH matched itm) as [H|[Hc Hin]].
      * left. exact H.
      * right. split; [exact Hc | right; exact Hin].
Qed.

Lemma match_label_total (pol : policy) (itm : string) :
  policy_ok pol = true ->
  label_ok itm = true ->
  exists matched itm',
    match_label pol itm = Ok (matched, itm') /\ label_ok itm' = true.
Proof.
  unfold policy_ok, match_label. intros Hp Hi.
  destruct (partial_match pol).
  - destruct (chunk_types pol) as [cts|]; [|discriminate Hp].
    destruct (partial_loop (collapse_partials pol) cts false itm)
      as [matched itm'] eqn:E.
    exists matched, itm'. split; [reflexivity|].
    destruct (partial_loop_label (collapse_partials pol) cts false itm)
      as [H|[Hc Hin]]; rewrite E in *; simpl in *.
    + subst itm'. exact Hi.
    + rewrite Hc in Hp. simpl in Hp.
      rewrite forallb_forall in Hp. apply Hp, Hin.
  - destruct (chunk_types pol) as [cts|]; eexists _, itm;
      (split; [reflexivity | exact Hi]).
Qed.

Lemma rebind_total (pol : policy) (cur : option string) (tok : string) :
  policy_ok pol = true ->
  token_ok tok = true ->
  exists cur' itm,
    rebind pol cur tok = Ok (cur', itm) /\ label_ok itm = true.
Proof.
  intros Hp Ht. unfold rebind.
  destruct tok as [|c r]; [discriminate Ht|]. simpl in Ht |- *.
  destruct (L_BRACKET c).
  - destruct (match_label_total pol r Hp Ht) as (matched & itm' & -> & Hok).
    simpl. exists (Some itm'), itm'. split; [reflexivity | exact Hok].
  - exists cur, (String c r). split; [reflexivity | exact Ht].
Qed.

Lemma leaf_seq_total (pol : policy) (toks : list string) :
  policy_ok pol = true ->
  forallb token_ok toks = true ->
  forall cur,
    exists ls, leaf_seq pol cur toks = Ok ls /\ words_nonempty ls = true.
Proof.
  intros Hp. induction toks as [|tok rest IH]; simpl; intros Ht cur.
  - exists []. split; reflexivity.
  - apply andb_prop in Ht. destruct Ht as [Ht Hrest].
    destruct (rebind_total pol cur tok Hp Ht) as (cur' & itm & -> & Hok).
    simpl.
    destruct (closing_word_total itm Hok) as (w & -> & Hw). simpl.
    destruct (IH Hrest cur') as (ls & -> & Hls). simpl.
    eexists. split; [reflexivity|].
    destruct w as [x|]; [|exact Hls].
    simpl. rewrite Hls, andb_true_r.
    destruct (String.eqb x "") eqn:E; [|reflexivity].
    apply String.eqb_eq in E. exfalso. apply (Hw x eq_refl E).
Qed.

(** The scan of a readable sentence returns, and its frames hold the pairs
    of the closing tokens. *)
Lemma chunk_sentence_leaves (pol : policy) (toks : list string)
    (ls : list (option string * string)) :
  leaf_seq pol None toks = Ok ls ->
  exists stk, chunk_sentence pol toks = Ok stk /\ stack_leaves stk = ls.
Proof.
  intros Hls. unfold chunk_sentence.
  destruct (scan_total pol toks (init pol) ls (safe_init pol) Hls)
    as (st & Hscan & _).
  rewrite Hscan. simpl. exists (stack st). split; [reflexivity|].
  destruct (scan_leaves pol toks _ _ Hscan) as (ls' & Hls' & Hl).
  simpl in Hls'. rewrite Hls in Hls'. injection Hls' as <-.
  rewrite Hl. reflexivity.
Qed.

(** ** The prefix test of the partial match *)

Lemma prefix_test (e itm : string) :
  (String.length e <=? String.length itm)%nat
  && String.eqb e (Py.upto (String.length e) itm)
  = String.prefix e itm.
Proof.
  unfold Py.upto. revert itm.
  induction e as [|a e IH]; intros [|b itm]; simpl; try reflexivity.
  rewrite <- IH. destruct (ascii_dec a b) as [->|Hab].
  - rewrite Ascii.eqb_refl. reflexivity.
  - apply Ascii.eqb_neq in Hab. rewrite Hab.
    apply andb_false_r.
Qed.

Lemma prefix_refl (s : string) : String.prefix s s = true.
Proof.
  induction s as [|a s IH]; simpl; [reflexivity|].
  destruct (ascii_dec a a); [exact IH | contradiction].
Qed.

Lemma prefix_trans (s1 s2 s3 : string) :
  String.prefix s1 s2 = true ->
  String.prefix s2 s3 = true ->
  String.prefix s1 s3 = true.
Proof.
  revert s2 s3.
  induction s1 as [|a s1 IH]; intros [|b s2] [|c s3]; simpl;
    try reflexivity; try discriminate.
  destruct (ascii_dec a b) as [->|]; [|discriminate].
  destruct (ascii_dec b c) as [->|]; [|discriminate].
  apply IH.
Qed.

Lemma partial_loop_unfold (collapse : bool) (e : string) (rest : list string)
    (matched : bool) (itm : string) :
  partial_loop collapse (e :: rest) matched itm
  = if String.prefix e itm
    then partial_loop collapse rest true (if collapse then e else itm)
    else partial_loop collapse rest matched itm.
Proof.
  simpl. rewrite prefix_test. reflexivity.
Qed.

Lemma partial_loop_prefix (collapse : bool) (cts : list string) :
  forall matched itm,
    String.prefix (snd (partial_loop collapse cts matched itm)) itm = true.
Proof.
  induction cts as [|e rest IH]; intros matched itm.
  - apply prefix_refl.
  - rewrite partial_loop_unfold. destruct (String.prefix e itm) eqn:He.
    + destruct collapse.
      * apply (prefix_trans _ e); [apply IH | exact He].
      * apply IH.
    + apply IH.
Qed.

Lemma partial_loop_plain (cts : list string) :
  forall matched itm, snd (partial_loop false cts matched itm) = itm.
Proof.
  induction cts as [|e rest IH]; intros matched itm.
  - reflexivity.
  - rewrite partial_loop_unfold. destruct (String.prefix e itm); apply IH.
Qed.

Lemma partial_loop_matched (collapse : bool) (cts : list string) :
  forall itm, fst (partial_loop collapse cts true itm) = true.
Proof.
  induction cts as [|e rest IH]; intros itm.
  - reflexivity.
  - rewrite partial_loop_unfold. destruct (String.prefix e itm); apply IH.
Qed.

(** The label a bracket is rebound to: the written one, or under
    [partial_match] with [collapse_partials] a chunk type that is a prefix
    of it. *)
Lemma match_label_label (pol : policy) (itm itm' : string) (matched : bool) :
  match_label pol itm = Ok (matched, itm') ->
  String.prefix itm' itm = true /\
  (itm' = itm \/
   (partial_match pol = true /\ collapse_partials pol = true /\
    exists cts, chunk_types pol = Some cts /\ In itm' cts)).
Proof.
  unfold match_label. intros H.
  destruct (partial_match pol).
  - destruct (chunk_types pol) as [cts|]; [|discriminate H].
    injection H as H.
    assert (E : itm' = snd (partial_loop (collapse_partials pol) cts false itm))
      by (rewrite H; reflexivity).
    split.
    + rewrite E. apply partial_loop_prefix.
    + destruct (partial_loop_label (collapse_partials pol) cts false itm)
        as [Hl|[Hc Hin]]; rewrite <- E in *.
      * left. exact Hl.
      * right. repeat split; try assumption. exists cts. split; [reflexivity|].
        exact Hin.
  - assert (E : itm' = itm).
    { destruct (chunk_types pol); injection H as _ <-; reflexivity. }
    rewrite E. split; [apply prefix_refl | left; reflexivity].
Qed.

(** ** Policies under which no label matches *)

Lemma process_token_unmatched (pol : policy) (st st' : state) (tok : string)
    (n : string) (ks : list child) :
  (forall itm, match_label pol itm = Ok (false, itm)) ->
  stack st = [Tree n ks] ->
  inTag st = [] ->
  process_token pol st tok = Ok st' ->
  exists itm w,
    rebind pol (itmType st) tok = Ok (itmType st', itm) /\
    closing_word itm = Ok w /\
    inTag st' = [] /\
    stack st' = [Tree n (ks ++ match w with
                               | Some w => [Leaf (itmType st') w]
                               | None => []
                               end)].
Proof.
  intros Hno Hs Ht. unfold process_token, rebind, closing_word. intros H.
  inv_bind H. rename a into c. rewrite Ha. cbn [bind].
  inv_bind H. destruct a as [st1 itm].
  inv_bind H. rename a into d.
  assert (H1 : (if L_BRACKET c
                then '(_, itm0) <- match_label pol (Py.tail tok) ;;
                     Ok (Some itm0, itm0)
                else Ok (itmType st, tok)) = Ok (itmType st1, itm)
               /\ stack st1 = [Tree n ks] /\ inTag st1 = []).
  { destruct (L_BRACKET c).
    - unfold open_bracket in Ha0. rewrite Hno in *. simpl in Ha0 |- *.
      injection Ha0 as <- <-. simpl. repeat split; assumption.
    - injection Ha0 as <- <-. repeat split; assumption. }
  destruct H1 as (H1 & Hs1 & Ht1).
  exists itm. rewrite Ha1. cbn [bind].
  destruct (R_BRACKET d).
  - unfold close_bracket in H. inv_bind H. rename a into w.
    rewrite Ha2. cbn [bind]. exists (Some w).
    unfold attach_leaf in H. rewrite Ht1, Hs1 in H. simpl in H.
    assert (Hpop : (if cascade pol then pop_frame [Tree n ks] else [Tree n ks])
                   = [Tree n ks]) by (destruct (cascade pol); reflexivity).
    rewrite Hpop in H. simpl in H. simp close_loop in H.
    injection H as <-. simpl. repeat split. exact H1.
  - injection H as <-. exists None. rewrite app_nil_r.
    repeat split; assumption.
Qed.

Lemma scan_unmatched (pol : policy) (toks : list string) :
  (forall itm, match_label pol itm = Ok (false, itm)) ->
  forall st st' n ks,
    stack st = [Tree n ks] ->
    inTag st = [] ->
    scan pol st toks = Ok st' ->
    exists ls,
      leaf_seq pol (itmType st) toks = Ok ls /\
      stack st' = [Tree n (ks ++ map leaf_of ls)].
Proof.
  intros Hno.
  induction toks as [|tok rest IH]; simpl; intros st st' n ks Hs Ht H.
  - injection H as <-. exists []. simpl. rewrite app_nil_r.
    split; [reflexivity | exact Hs].
  - inv_bind H. rename a into st1.
    destruct (process_token_unmatched pol st st1 tok n ks Hno Hs Ht Ha)
      as (itm & w & Hr & Hw & Ht1 & Hs1).
    destruct (IH _ _ _ _ Hs1 Ht1 H) as (ls & Hls & Hs').
    rewrite Hr. cbn [bind]. rewrite Hw. cbn [bind]. rewrite Hls. cbn [bind].
    eexists. split; [reflexivity|].
    rewrite Hs', <- app_assoc. destruct w; reflexivity.
Qed.

(** Without a match the sentence is the flat tree of its leaves. *)
Lemma chunk_sentence_unmatched (pol : policy) (toks : list string) :
  (forall itm, match_label pol itm = Ok (false, itm)) ->
  policy_ok pol = true ->
  forallb token_ok toks = true ->
  exists ls,
    leaf_seq pol None toks = Ok ls /\
    chunk_sentence pol toks = Ok [Tree (top_node pol) (map leaf_of ls)].
Proof.
  intros Hno Hp Ht.
  destruct (leaf_seq_total pol toks Hp Ht None) as (ls & Hls & _).
  exists ls. split; [exact Hls|].
  unfold chunk_sentence.
  destruct (scan_total pol toks (init pol) ls (safe_init pol) Hls)
    as (st & Hscan & _).
  rewrite Hscan. simpl.
  destruct (scan_unmatched pol toks Hno (init pol) st (top_node pol) []
              eq_refl eq_refl Hscan) as (ls' & Hls' & Hs).
  simpl in Hls'. rewrite Hls in Hls'. injection Hls' as <-.
  rewrite Hs. reflexivity.
Qed.

(** ** Scanning all chunk types *)



Lemma partial_loop_fst (collapse : bool) (cts : list string) (itm : string) :
  fst (partial_loop collapse cts false itm)
  = existsb (fun e => String.prefix e itm) cts.
Proof.
  induction cts as [|e rest IH].
  - reflexivity.
  - rewrite partial_loop_unfold. simpl.
    destruct (String.prefix e itm).
    + apply partial_loop_matched.
    + exact IH.
Qed.



(** ** The single root frame without cascading *)

Lemma open_bracket_single_root (pol : policy) (st st1 : state)
    (tok itm : string) (ks : list child) :
  cascade pol = false ->
  stack st = [Tree (top_node pol) ks] ->
  open_bracket pol st tok = Ok (st1, itm) ->
  stack st1 = [Tree (top_node pol) ks] \/
  (inTag st = [] /\
   stack st1 = [Tree (top_node pol) (ks ++ [Sub (Tree itm [])])]).
Proof.
  intros Hc Hs H. unfold open_bracket in H.
  inv_bind H. destruct a as [matched itm'].
  inv_bind H. destruct a as [stk tags]. injection H as <- <-.
  simpl. rewrite Hc, Hs in Ha0.
  destruct matched.
  - destruct (inTag st) eqn:Ht.
    + simpl in Ha0. injection Ha0 as <- _. right. split; reflexivity.
    + injection Ha0 as <- _. left. reflexivity.
  - injection Ha0 as <- _. left. reflexivity.
Qed.

Lemma open_bracket_flat_appends (pol : policy) (st : state)
    (tok itm : string) (ks : list child) :
  cascade pol = false ->
  stack st = [Tree (top_node pol) ks] ->
  inTag st = [] ->
  match_label pol (Py.tail tok) = Ok (true, itm) ->
  open_bracket pol st tok
  = Ok (State (bracket st + 1) (Some itm)
          [Tree (top_node pol) (ks ++ [Sub (Tree itm [])])]
          [(bracket st + 1)%Z], itm).
Proof.
  intros Hc Hs Ht Hm. unfold open_bracket.
  rewrite Hm. cbn [bind]. rewrite Hc, Ht, Hs. reflexivity.
Qed.

Lemma open_bracket_flat_skips (pol : policy) (st : state)
    (tok itm : string) (matched : bool) :
  cascade pol = false ->
  match_label pol (Py.tail tok) = Ok (matched, itm) ->
  matched = false \/ inTag st <> [] ->
  open_bracket pol st tok
  = Ok (State (bracket st + 1) (Some itm) (stack st) (inTag st), itm).
Proof.
  intros Hc Hm Hskip. unfold open_bracket.
  rewrite Hm. cbn [bind]. rewrite Hc.
  destruct matched; [|reflexivity].
  destruct Hskip as [Hf|Hne]; [discriminate Hf|].
  destruct (inTag st); [contradiction | reflexivity].
Qed.

Lemma attach_leaf_single_root (pol : policy) (st st1 : state) (w : string) :
  cascade pol = false ->
  single_root pol st ->
  attach_leaf pol st w = Ok st1 ->
  single_root pol st1.
Proof.
  intros Hc [ks Hs] H. unfold attach_leaf in H. rewrite Hc, Hs in H.
  unfold single_root.
  destruct (marker_le (inTag st) (bracket st)).
  - inv_bind H. injection H as <-. simpl.
    apply append_top_last_inv in Ha.
    destruct Ha as (s0 & n & ks' & t & E & ->).
    destruct s0 as [|x s0].
    + injection E as -> _. eexists. reflexivity.
    + destruct s0; discriminate E.
  - simpl in H. injection H as <-. simpl. eexists. reflexivity.
Qed.

Lemma close_bracket_single_root (pol : policy) (st st' : state)
    (itm : string) (d : ascii) :
  cascade pol = false ->
  single_root pol st ->
  close_bracket pol st itm d = Ok st' ->
  single_root pol st'.
Proof.
  intros Hc Hroot H. unfold close_bracket in H.
  inv_bind H. inv_bind H. rename a0 into st1.
  apply (attach_leaf_single_root pol st st1 a Hc Hroot) in Ha0.
  destruct (close_loop _ _ _ _) as [stk tags] eqn:E. injection H as <-.
  destruct Ha0 as [ks Hs]. exists ks. simpl.
  change stk with (fst (stk, tags)). rewrite <- E, <- Hs.
  apply close_loop_flat, Hc.
Qed.

Lemma process_token_single_root (pol : policy) (st st' : state) (tok : string) :
  cascade pol = false ->
  single_root pol st ->
  process_token pol st tok = Ok st' ->
  single_root pol st'.
Proof.
  intros Hc Hroot H. unfold process_token in H.
  inv_bind H. rename a into c. inv_bind H. destruct a as [st1 itm].
  inv_bind H. rename a into d.
  assert (Hroot1 : single_root pol st1).
  { destruct (L_BRACKET c).
    - destruct Hroot as [ks Hs].
      destruct (open_bracket_single_root pol st st1 tok itm ks Hc Hs Ha0)
        as [E|[_ E]]; eexists; exact E.
    - injection Ha0 as <- _. exact Hroot. }
  destruct (R_BRACKET d).
  - apply (close_bracket_single_root pol st1 st' itm d Hc Hroot1 H).
  - injection H as <-. exact Hroot1.
Qed.

Lemma scan_single_root (pol : policy) (toks : list string) :
  cascade pol = false ->
  forall st st',
    single_root pol st -> scan pol st toks = Ok st' -> single_root pol st'.
Proof.
  intros Hc. induction toks as [|tok rest IH]; simpl; intros st st' Hroot H.
  - injection H as <-. exact Hroot.
  - inv_bind H.
    apply (IH a st'); [|exact H].
    apply (process_token_single_root pol st a tok Hc Hroot Ha).
Qed.

(** ** One turn of the closing loop, and the sentences of a file *)

Lemma close_loop_turn (casc : bool) (b : Z) (stk : list tree) (m : Z)
    (ms : list Z) :
  (b <? List.last (m :: ms) m)%Z = true ->
  close_loop casc b stk (m :: ms)
  = close_loop casc b (if casc then pop_frame stk else stk)
               (Py.drop_end 2 (m :: ms)).
Proof.
  intros H. simp close_loop. rewrite H. reflexivity.
Qed.

Lemma close_loop_stop (casc : bool) (b : Z) (stk : list tree) (m : Z)
    (ms : list Z) :
  (b <? List.last (m :: ms) m)%Z = false ->
  close_loop casc b stk (m :: ms) = (stk, m :: ms).
Proof.
  intros H. simp close_loop. rewrite H. reflexivity.
Qed.

(** One value is yielded per sentence, in the order of the sentences. *)
Lemma _chunk_parse_per_sentence (pol : policy) (data : list (list string)) :
  forall outs,
    _chunk_parse pol data = Ok outs ->
    Forall2 (fun s out => chunk_sentence pol s = Ok out) data outs.
Proof.
  induction data as [|s rest IH]; simpl; intros outs H.
  - injection H as <-. constructor.
  - inv_bind H. inv_bind H. injection H as <-.
    constructor; [exact Ha | apply IH, Ha0].
Qed.

(** * The properties of the specification *)

(** C1.  For a sentence with balanced brackets the builder is to return
    exactly one root tree labelled [top_node].  The scan is a total
    function, but with [cascade] the balanced sentence [(NP (NP w))]
    comes back as a stack of two frames: an empty root [S] and the outer
    [NP], never re-parented, because closing the inner chunk dropped both
    depth markers. *)
Theorem cascade_returns_two_frames :
  Spec.balanced ["(NP"; "(NP"; "w))"] = true /\
  chunk_sentence (Policy (Some ["NP"]) "S" false true true)
                 ["(NP"; "(NP"; "w))"]
  = Ok [Tree "S" [];
        Tree "NP" [Sub (Tree "NP" [Leaf (Some "NP") "w"])]].
Proof.
  split; reflexivity.
Qed.

(** C2.  The depth markers are to be one per open chunk frame, one marker
    removed per frame closed.  One turn of the closing loop pops one frame
    and removes two markers ([inTag[:-2]]): after [(NP (NP (N w))] the
    outer [NP] frame is still open at depth 1 and [inTag] is empty. *)
Theorem close_loop_drops_two_markers :
  close_loop true 1
    [Tree "S" []; Tree "NP" []; Tree "NP" [Leaf (Some "N") "w"]] [1; 2]%Z
  = ([Tree "S" []; Tree "NP" [Sub (Tree "NP" [Leaf (Some "N") "w"])]], [])
  /\
  scan (Policy (Some ["NP"]) "S" false true true)
       (init (Policy (Some ["NP"]) "S" false true true))
       ["(NP"; "(NP"; "(N"; "w))"]
  = Ok (State 1 (Some "N")
          [Tree "S" []; Tree "NP" [Sub (Tree "NP" [Leaf (Some "N") "w"])]]
          []).
Proof.
  split; reflexivity.
Qed.




(** C4, as stated, fails: with [chunk_types] unset the label [NP] does not
    match and the sentence [(NP (N dog))] has no chunk node at all. *)
Lemma unset_chunk_types_match_nothing :
  match_label (Policy None "S" false true false) "NP" = Ok (false, "NP") /\
  chunk_sentence (Policy None "S" false true false) ["(NP"; "(N"; "dog))"]
  = Ok [Tree "S" [Leaf (Some "N") "dog"]] /\
  chunk_count (Tree "S" [Leaf (Some "N") "dog"]) = 0.
Proof.
  repeat split.
Qed.

(** C4 (amended).  When [chunk_types] is [None] and [partial_match] is not
    requested, no bracket label matches, and a sentence of readable tokens
    becomes the flat tree: a single root [top_node] whose children are the
    leaves of the closing tokens, in order. *)
Theorem unset_chunk_types_flat_tree (top : string) (cp casc : bool)
    (toks : list string) :
  forallb token_ok toks = true ->
  (forall itm,
      match_label (Policy None top false cp casc) itm = Ok (false, itm)) /\
  exists ls,
    leaf_seq (Policy None top false cp casc) None toks = Ok ls /\
    chunk_sentence (Policy None top false cp casc) toks
    = Ok [Tree top (map leaf_of ls)].
Proof.
  intros Ht.
  assert (Hno : forall itm,
             match_label (Policy None top false cp casc) itm = Ok (false, itm))
    by reflexivity.
  split; [exact Hno|].
  apply (chunk_sentence_unmatched (Policy None top false cp casc) toks Hno
           eq_refl Ht).
Qed.

Lemma unset_chunk_types_flat_tree_witness :
  forallb token_ok ["(NP"; "(N"; "dog))"] = true /\
  exists ls,
    leaf_seq (Policy None "S" false true true) None ["(NP"; "(N"; "dog))"]
    = Ok ls /\
    chunk_sentence (Policy None "S" false true true) ["(NP"; "(N"; "dog))"]
    = Ok [Tree "S" (map leaf_of ls)].
Proof.
  split; [reflexivity|].
  apply (unset_chunk_types_flat_tree "S" true true ["(NP"; "(N"; "dog))"]
           eq_refl).
Defined.




(** C6, as stated, fails: the balanced sentence
    [(IP-MAT (NP-NOM he) (VBD com))], chunked for [NP] with [partial_match]
    and [collapse_partials], flattens to [(NP, he) (VBD, com)], while its
    terminals are [(NP-NOM, he) (VBD, com)]. *)
Lemma roundtrip_breaks_on_collapsed_label :
  Spec.balanced ["(IP-MAT"; "(NP-NOM"; "he)"; "(VBD"; "com))"] = true /\
  chunk_sentence (Policy (Some ["NP"]) "S" true true false)
                 ["(IP-MAT"; "(NP-NOM"; "he)"; "(VBD"; "com))"]
  = Ok [Tree "S" [Sub (Tree "NP" [Leaf (Some "NP") "he"]);
                  Leaf (Some "VBD") "com"]] /\
  leaves (Tree "S" [Sub (Tree "NP" [Leaf (Some "NP") "he"]);
                    Leaf (Some "VBD") "com"])
  <> Spec.terminals ["(IP-MAT"; "(NP-NOM"; "he)"; "(VBD"; "com))"].
Proof.
  repeat split. discriminate.
Qed.

(** C6 (amended).  For every chunk policy that can be read and every
    sentence of readable tokens, balanced or not, the builder returns, and
    flattening the leaves of the returned frames, bottom frame first, each
    depth first and left to right, gives exactly one pair per closing token,
    in order: the label register at that token (the rebound label of the
    bracket opened last) and the text before its closing brackets. *)
Theorem leaves_follow_closing_tokens (pol : policy) (toks : list string) :
  policy_ok pol = true ->
  forallb token_ok toks = true ->
  exists stk ls,
    chunk_sentence pol toks = Ok stk /\
    leaf_seq pol None toks = Ok ls /\
    flat_map leaves stk = ls.
Proof.
  intros Hp Ht.
  destruct (leaf_seq_total pol toks Hp Ht None) as (ls & Hls & _).
  destruct (chunk_sentence_leaves pol toks ls Hls) as (stk & Hstk & Hl).
  exists stk, ls. repeat split; assumption.
Qed.

Lemma leaves_follow_closing_tokens_witness :
  policy_ok (Policy (Some ["NP"; "PP"]) "S" true false true) = true /\
  forallb token_ok ["(IP-MAT"; "(NP-NOM"; "(PRO^N"; "He))"; "(VBD"; "com))"]
  = true /\
  exists stk ls,
    chunk_sentence (Policy (Some ["NP"; "PP"]) "S" true false true)
      ["(IP-MAT"; "(NP-NOM"; "(PRO^N"; "He))"; "(VBD"; "com))"] = Ok stk /\
    leaf_seq (Policy (Some ["NP"; "PP"]) "S" true false true) None
      ["(IP-MAT"; "(NP-NOM"; "(PRO^N"; "He))"; "(VBD"; "com))"] = Ok ls /\
    flat_map leaves stk = ls.
Proof.
  split; [reflexivity|]. split; [reflexivity|].
  apply (leaves_follow_closing_tokens
           (Policy (Some ["NP"; "PP"]) "S" true false true)
           ["(IP-MAT"; "(NP-NOM"; "(PRO^N"; "He))"; "(VBD"; "com))"]
           eq_refl eq_refl).
Defined.

(** C7, as stated, fails: with [chunk_types] provided but empty and
    [partial_match] requested nothing is raised; the sentence is built. *)
Lemma empty_chunk_types_raise_nothing :
  chunk_sentence (Policy (Some []) "S" true true false) ["(NP"; "(N"; "dog))"]
  = Ok [Tree "S" [Leaf (Some "N") "dog"]] /\
  forall e,
    chunk_sentence (Policy (Some []) "S" true true false)
                   ["(NP"; "(N"; "dog))"] <> Raise e.
Proof.
  split; [reflexivity|]. intros e. discriminate.
Qed.

(** C7 (amended).  The builder has no policy check and signals no policy
    error: under every policy that can be read it raises nothing on a
    sentence of readable tokens.  In particular, with [chunk_types] provided
    but empty and [partial_match] requested, no label matches and the
    sentence is returned as the flat tree of its leaves under [top_node]. *)
Theorem builder_makes_no_policy_check (pol : policy) (toks : list string) :
  policy_ok pol = true ->
  forallb token_ok toks = true ->
  (exists stk, chunk_sentence pol toks = Ok stk) /\
  (chunk_types pol = Some [] ->
   partial_match pol = true ->
   (forall itm, match_label pol itm = Ok (false, itm)) /\
   exists ls,
     leaf_seq pol None toks = Ok ls /\
     chunk_sentence pol toks = Ok [Tree (top_node pol) (map leaf_of ls)]).
Proof.
  intros Hp Ht. split.
  - destruct (leaf_seq_total pol toks Hp Ht None) as (ls & Hls & _).
    destruct (chunk_sentence_leaves pol toks ls Hls) as (stk & Hstk & _).
    exists stk. exact Hstk.
  - intros Hct Hpm.
    assert (Hno : forall itm, match_label pol itm = Ok (false, itm)).
    { intros itm. unfold match_label. rewrite Hpm, Hct. reflexivity. }
    split; [exact Hno|].
    apply (chunk_sentence_unmatched pol toks Hno Hp Ht).
Qed.

Lemma builder_makes_no_policy_check_witness :
  policy_ok (Policy (Some []) "S" true true true) = true /\
  forallb token_ok ["(PP"; "(P"; "on)"; "(N"; "wisan))"] = true /\
  (exists stk,
      chunk_sentence (Policy (Some []) "S" true true true)
                     ["(PP"; "(P"; "on)"; "(N"; "wisan))"] = Ok stk) /\
  exists ls,
    leaf_seq (Policy (Some []) "S" true true true) None
             ["(PP"; "(P"; "on)"; "(N"; "wisan))"] = Ok ls /\
    chunk_sentence (Policy (Some []) "S" true true true)
                   ["(PP"; "(P"; "on)"; "(N"; "wisan))"]
    = Ok [Tree "S" (map leaf_of ls)].
Proof.
  split; [reflexivity|]. split; [reflexivity|].
  destruct (builder_makes_no_policy_check
              (Policy (Some []) "S" true true true)
              ["(PP"; "(P"; "on)"; "(N"; "wisan))"] eq_refl eq_refl)
    as [Hret Hflat].
  split; [exact Hret|].
  apply (proj2 (Hflat eq_refl eq_refl)).
Defined.

(** C8.  The annotation nodes are to be removed before the text is parsed.
    [YCOEParseCorpusReader._parse] computes the stripped text and then hands
    the text it was given to the parent reader, whatever that reader is: on
    [(NP (N dog)) (ID a,1:1)] the node [(ID a,1:1)] is still there. *)
Theorem parse_reader_hands_on_unstripped_text :
  (forall (T : Type) (parent : string -> result T) (t : string),
      YCOEParseCorpusReader__parse parent t = parent t) /\
  Re.sub Re.node_pattern "(NP (N dog)) (ID a,1:1)" = "(NP (N dog)) " /\
  YCOEParseCorpusReader__parse (fun t => Ok t) "(NP (N dog)) (ID a,1:1)"
  = Ok "(NP (N dog)) (ID a,1:1)".
Proof.
  repeat split.
Qed.

(** The pre-filter of the module-level [_parse] is greedy up to the last
    close bracket of the line, and its [ID] pattern wants a digit before the
    bracket. *)
Example strip_annotations_greedy :
  strip_annotations "(NP (CODE <T1>) (N dog))" = "(NP " /\
  strip_annotations "(NP (N dog)) (ID foo)" = "(NP (N dog)) (ID foo)" /\
  strip_annotations "(NP (N dog)) (ID a,1:1)" = "(NP (N dog)) ".
Proof.
  repeat split.
Qed.

(** C9, as stated, fails: [parsed-no-pos] is in the closed set, and the
    YCOE reader raises its format error for it. *)
Lemma ycoe_rejects_parsed_no_pos :
  In "parsed-no-pos" Spec.formats /\
  Ycoe.read_document "cocuraC" "parsed-no-pos"
                     (Policy (Some ["NP"]) "S" false true false)
  = Raise ValueError.
Proof.
  split.
  - simpl. tauto.
  - reflexivity.
Qed.

Lemma eqb_string_cases (format s : string) :
  (format = s /\ String.eqb format s = true) \/
  (format <> s /\ String.eqb format s = false).
Proof.
  destruct (String.eqb_spec format s) as [E|E]; [left|right]; split;
    auto.
Qed.

(** C9 (amended).  Each reader raises its format error ([ValueError]) for
    exactly the format strings it does not know.  The Treebank reader knows
    the six formats of the closed set.  The YCOE reader, for a single
    document, knows [raw], [tokenized], [tagged], [chunked] and [parsed];
    it raises for every other string, [parsed-no-pos] among them. *)
Theorem read_document_formats (item format : string) (pol : policy) :
  (In format Spec.formats <->
   exists c, Treebank.read_document item format = Ok c) /\
  (~ In format Spec.formats <->
   Treebank.read_document item format = Raise ValueError) /\
  (In format Ycoe.formats <->
   exists c, Ycoe.read_document item format pol = Ok c) /\
  (~ In format Ycoe.formats <->
   Ycoe.read_document item format pol = Raise ValueError).
Proof.
  unfold Treebank.read_document, Ycoe.read_document, Spec.formats,
    Ycoe.formats.
  destruct (eqb_string_cases format "raw") as [[E1 B1]|[E1 B1]];
  destruct (eqb_string_cases format "tokenized") as [[E2 B2]|[E2 B2]];
  destruct (eqb_string_cases format "tagged") as [[E3 B3]|[E3 B3]];
  destruct (eqb_string_cases format "chunked") as [[E4 B4]|[E4 B4]];
  destruct (eqb_string_cases format "parsed") as [[E5 B5]|[E5 B5]];
  destruct (eqb_string_cases format "parsed-no-pos") as [[E6 B6]|[E6 B6]];
  try congruence;
  rewrite ?B1, ?B2, ?B3, ?B4, ?B5, ?B6;
  repeat split;
  try (intros _; eexists; reflexivity);
  try (intros _; simpl; intuition congruence);
  try (intros [c Hc]; discriminate Hc);
  try (intros H; discriminate H);
  try (intros H; exfalso; apply H; simpl; intuition congruence);
  try (intros H; simpl in H; exfalso; intuition congruence);
  try (intros _ H; simpl in H; intuition congruence).
Qed.

(** C10.  Without cascading the frame stack is the single root frame
    [top_node] at every step of the scan.  It is so at the start.  In the
    opening branch a matched chunk, when no chunk is open, is appended
    there and then as the last child of the root and its depth is marked,
    nothing being pushed; a label that is not matched, or one met inside an
    open chunk, leaves stack and markers as they are.  The stack is still
    the single root after the leaf is attached, the closing loop does not
    touch it, and so it is the single root after each token and after every
    prefix of the sentence: no step pushes a frame or pops the root. *)
Theorem flat_mode_single_root (pol : policy) :
  cascade pol = false ->
  single_root pol (init pol) /\
  (forall st tok itm ks,
      stack st = [Tree (top_node pol) ks] ->
      inTag st = [] ->
      match_label pol (Py.tail tok) = Ok (true, itm) ->
      open_bracket pol st tok
      = Ok (State (bracket st + 1) (Some itm)
              [Tree (top_node pol) (ks ++ [Sub (Tree itm [])])]
              [(bracket st + 1)%Z], itm)) /\
  (forall st tok itm matched,
      match_label pol (Py.tail tok) = Ok (matched, itm) ->
      matched = false \/ inTag st <> [] ->
      open_bracket pol st tok
      = Ok (State (bracket st + 1) (Some itm) (stack st) (inTag st), itm)) /\
  (forall st tok st1 itm ks,
      stack st = [Tree (top_node pol) ks] ->
      open_bracket pol st tok = Ok (st1, itm) ->
      stack st1 = [Tree (top_node pol) ks] \/
      (inTag st = [] /\
       stack st1 = [Tree (top_node pol) (ks ++ [Sub (Tree itm [])])])) /\
  (forall st w st1,
      single_root pol st -> attach_leaf pol st w = Ok st1 ->
      single_root pol st1) /\
  (forall b stk tags, fst (close_loop (cascade pol) b stk tags) = stk) /\
  (forall st tok st',
      single_root pol st -> process_token pol st tok = Ok st' ->
      single_root pol st') /\
  (forall toks st,
      scan pol (init pol) toks = Ok st -> single_root pol st).
Proof.
  intros Hc.
  split; [exists []; reflexivity|].
  split; [intros st tok itm ks Hs Ht Hm;
          apply (open_bracket_flat_appends pol st tok itm ks Hc Hs Ht Hm)|].
  split; [intros st tok itm matched Hm Hskip;
          apply (open_bracket_flat_skips pol st tok itm matched Hc Hm Hskip)|].
  split; [intros st tok st1 itm ks Hs H;
          apply (open_bracket_single_root pol st st1 tok itm ks Hc Hs H)|].
  split; [intros st w st1 Hroot H;
          apply (attach_leaf_single_root pol st st1 w Hc Hroot H)|].
  split; [intros b stk tags; apply close_loop_flat, Hc|].
  split; [intros st tok st' Hroot H;
          apply (process_token_single_root pol st st' tok Hc Hroot H)|].
  intros toks st H.
  apply (scan_single_root pol toks Hc (init pol) st); [|exact H].
  exists []. reflexivity.
Qed.

Lemma flat_mode_single_root_witness :
  cascade (Policy (Some ["NP"]) "S" false true false) = false /\
  open_bracket (Policy (Some ["NP"]) "S" false true false)
               (State 1 (Some "IP-MAT") [Tree "S" []] []) "(NP"
  = Ok (State 2 (Some "NP") [Tree "S" [Sub (Tree "NP" [])]] [2%Z], "NP") /\
  open_bracket (Policy (Some ["NP"]) "S" false true false)
               (State 2 (Some "D")
                  [Tree "S" [Sub (Tree "NP" [Leaf (Some "D") "se"])]] [2%Z])
               "(NP"
  = Ok (State 3 (Some "NP")
          [Tree "S" [Sub (Tree "NP" [Leaf (Some "D") "se"])]] [2%Z], "NP") /\
  scan (Policy (Some ["NP"]) "S" false true false)
       (init (Policy (Some ["NP"]) "S" false true false))
       ["(IP-MAT"; "(NP"; "(D"; "se)"; "(NP"; "(N"; "cyning)))";
        "(VBD"; "com))"]
  = Ok (State 0 (Some "VBD")
          [Tree "S" [Sub (Tree "NP" [Leaf (Some "D") "se";
                                     Leaf (Some "N") "cyning"]);
                     Leaf (Some "VBD") "com"]] []) /\
  single_root (Policy (Some ["NP"]) "S" false true false)
    (State 0 (Some "VBD")
       [Tree "S" [Sub (Tree "NP" [Leaf (Some "D") "se";
                                  Leaf (Some "N") "cyning"]);
                  Leaf (Some "VBD") "com"]] []).
Proof.
  destruct (flat_mode_single_root (Policy (Some ["NP"]) "S" false true false)
              eq_refl) as (_ & Happend & Hskip & _ & _ & _ & _ & Hscan).
  split; [reflexivity|].
  split; [apply (Happend (State 1 (Some "IP-MAT") [Tree "S" []] []) "(NP" "NP"
                         [] eq_refl eq_refl eq_refl)|].
  split; [apply (Hskip (State 2 (Some "D")
                          [Tree "S" [Sub (Tree "NP" [Leaf (Some "D") "se"])]]
                          [2%Z]) "(NP" "NP" true eq_refl);
          right; discriminate|].
  split; [reflexivity|].
  apply (Hscan ["(IP-MAT"; "(NP"; "(D"; "se)"; "(NP"; "(N"; "cyning)))";
                "(VBD"; "com))"]).
  reflexivity.
Defined.

(** * Further properties of the builder *)

(** ** What each phase of a token can do to the state *)

Lemma open_bracket_shape (pol : policy) (st st1 : state) (tok itm : string) :
  open_bracket pol st tok = Ok (st1, itm) ->
  bracket st1 = (bracket st + 1)%Z /\
  exists matched,
    match_label pol (Py.tail tok) = Ok (matched, itm) /\
    ((stack st1 = stack st /\ inTag st1 = inTag st /\
      (matched = false \/ (cascade pol = false /\ inTag st <> []))) \/
     (matched = true /\ cascade pol = true /\
      stack st1 = stack st ++ [Tree itm []] /\
      inTag st1 = inTag st ++ [(bracket st + 1)%Z]) \/
     (matched = true /\ cascade pol = false /\ inTag st = [] /\
      inTag st1 = [(bracket st + 1)%Z] /\
      exists s0 t,
        stack st = s0 ++ [t] /\
        stack st1 = s0 ++ [append t (Sub (Tree itm []))])).
Proof.
  unfold open_bracket. intros H.
  inv_bind H. destruct a as [matched itm'].
  inv_bind H. destruct a as [stk tags]. injection H as <- <-.
  simpl. split; [reflexivity|]. exists matched. split; [exact Ha|].
  destruct matched.
  - destruct (cascade pol).
    + injection Ha0 as <- <-. right. left. repeat split.
    + destruct (inTag st) as [|m0 tags0] eqn:Ht.
      * inv_bind Ha0. injection Ha0 as <- <-.
        apply append_top_inv in Ha1. destruct Ha1 as (s0 & t & E1 & E2).
        right. right. repeat split. exists s0, t. split; assumption.
      * injection Ha0 as <- <-. left. repeat split.
        right. split; [reflexivity | discriminate].
  - injection Ha0 as <- <-. left. repeat split. left. reflexivity.
Qed.

Lemma attach_leaf_shape (pol : policy) (st st1 : state) (w : string) :
  attach_leaf pol st w = Ok st1 ->
  bracket st1 = bracket st /\
  ((marker_le (inTag st) (bracket st) = true /\ cascade pol = true /\
    inTag st1 = inTag st /\
    exists s0 t,
      stack st = s0 ++ [t] /\
      stack st1 = s0 ++ [append t (Leaf (itmType st) w)]) \/
   (marker_le (inTag st) (bracket st) = true /\ cascade pol = false /\
    inTag st1 = inTag st /\
    exists s0 n ks t,
      stack st = s0 ++ [Tree n (ks ++ [Sub t])] /\
      stack st1
      = s0 ++ [Tree n (ks ++ [Sub (append t (Leaf (itmType st) w))])]) \/
   (marker_le (inTag st) (bracket st) = false /\
    inTag st1 = Py.drop_end 2 (inTag st) /\
    exists s0 t,
      (if cascade pol then pop_frame (stack st) else stack st) = s0 ++ [t] /\
      stack st1 = s0 ++ [append t (Leaf (itmType st) w)])).
Proof.
  unfold attach_leaf. intros H.
  destruct (marker_le (inTag st) (bracket st)).
  - inv_bind H. injection H as <-. simpl. split; [reflexivity|].
    destruct (cascade pol).
    + left. repeat split. apply append_top_inv in Ha. exact Ha.
    + right. left. repeat split. apply append_top_last_inv in Ha. exact Ha.
  - inv_bind H. injection H as <-. simpl. split; [reflexivity|].
    right. right. repeat split. apply append_top_inv in Ha. exact Ha.
Qed.

Lemma close_bracket_shape (pol : policy) (st st' : state) (itm : string)
    (d : ascii) :
  close_bracket pol st itm d = Ok st' ->
  exists w st1,
    attach_leaf pol st w = Ok st1 /\
    bracket st' = (bracket st - (Py.len (Py.split itm d) - 1))%Z /\
    (0 <= Py.len (Py.split itm d) - 1)%Z /\
    stack st' = fst (close_loop (cascade pol) (bracket st') (stack st1)
                                (inTag st1)) /\
    inTag st' = snd (close_loop (cascade pol) (bracket st') (stack st1)
                                (inTag st1)).
Proof.
  unfold close_bracket. intros H.
  inv_bind H. rename a into w. inv_bind H. rename a into st1.
  exists w, st1. split; [exact Ha0|].
  destruct (attach_leaf_shape pol st st1 w Ha0) as [Hb _].
  destruct (close_loop _ _ _ _) as [stk tags] eqn:E.
  injection H as <-. simpl. rewrite Hb in *. rewrite E. simpl.
  repeat split.
  unfold Py.len. pose proof (split_nonempty itm d) as Hne.
  destruct (Py.split itm d); [contradiction|]. simpl length. lia.
Qed.

Lemma process_token_shape (pol : policy) (st st' : state) (tok : string) :
  process_token pol st tok = Ok st' ->
  exists c st1 itm d,
    Py.first tok = Ok c /\
    ((L_BRACKET c = true /\ open_bracket pol st tok = Ok (st1, itm)) \/
     (L_BRACKET c = false /\ st1 = st /\ itm = tok)) /\
    Py.final itm = Ok d /\
    ((R_BRACKET d = true /\ close_bracket pol st1 itm d = Ok st') \/
     (R_BRACKET d = false /\ st' = st1)).
Proof.
  unfold process_token. intros H.
  inv_bind H. rename a into c. inv_bind H. destruct a as [st1 itm].
  inv_bind H. rename a into d.
  exists c, st1, itm, d. split; [exact Ha|]. split; [|split; [exact Ha1|]].
  - destruct (L_BRACKET c).
    + left. split; [reflexivity | exact Ha0].
    + right. injection Ha0 as <- <-. repeat split.
  - destruct (R_BRACKET d).
    + left. split; [reflexivity | exact H].
    + right. injection H as <-. split; reflexivity.
Qed.

(** ** Invariants of the scan, phase by phase *)

Section Invariant.

Variable pol : policy.
Variable Inv : state -> Prop.
Variable seen : string -> Prop.

Hypothesis Inv_open :
  forall st tok st1 itm c,
    seen tok -> Py.first tok = Ok c -> L_BRACKET c = true ->
    Inv st -> open_bracket pol st tok = Ok (st1, itm) -> Inv st1.

Hypothesis Inv_close :
  forall st itm d st',
    Inv st -> close_bracket pol st itm d = Ok st' -> Inv st'.

Lemma process_token_invariant (st st' : state) (tok : string) :
  seen tok -> Inv st -> process_token pol st tok = Ok st' -> Inv st'.
Proof.
  intros Hseen HI H. apply process_token_shape in H.
  destruct H as (c & st1 & itm & d & Hc & Hopen & _ & Hclose).
  assert (H1 : Inv st1).
  { destruct Hopen as [[Hb Ho]|[_ [-> _]]]; [|exact HI].
    apply (Inv_open st tok st1 itm c Hseen Hc Hb HI Ho). }
  destruct Hclose as [[_ Hcl]|[_ ->]]; [|exact H1].
  apply (Inv_close st1 itm d st' H1 Hcl).
Qed.

Lemma scan_invariant (toks : list string) :
  Forall seen toks ->
  forall st st', Inv st -> scan pol st toks = Ok st' -> Inv st'.
Proof.
  induction 1 as [|tok rest Htok Hrest IH]; simpl; intros st st' HI H.
  - injection H as <-. exact HI.
  - inv_bind H. apply (IH a st'); [|exact H].
    apply (process_token_invariant st a tok Htok HI Ha).
Qed.

End Invariant.

(** The closing loop keeps what each of its turns keeps. *)
Lemma close_loop_invariant (R : list tree -> list Z -> Prop) (casc : bool)
    (b : Z) :
  (forall stk m ms,
      (b <? List.last (m :: ms) m)%Z = true ->
      R stk (m :: ms) ->
      R (if casc then pop_frame stk else stk) (Py.drop_end 2 (m :: ms))) ->
  forall stk tags,
    R stk tags ->
    R (fst (close_loop casc b stk tags)) (snd (close_loop casc b stk tags)).
Proof.
  intros Hturn stk tags. funelim (close_loop casc b stk tags); intros HR.
  - exact HR.
  - match goal with
    | IH : forall R' : list tree -> list Z -> Prop, _ |- _ => apply (IH R)
    end.
    + exact Hturn.
    + apply Hturn; assumption.
  - exact HR.
Qed.

(** When the loop stops no marker is above the depth. *)
Lemma close_loop_exit (casc : bool) (b : Z) (stk : list tree) (tags : list Z) :
  marker_le (snd (close_loop casc b stk tags)) b = true \/
  snd (close_loop casc b stk tags) = [].
Proof.
  funelim (close_loop casc b stk tags).
  - right. reflexivity.
  - assumption.
  - left. simpl snd. unfold marker_le.
    destruct (snoc_cases (m :: ms)) as [E|(l' & x & E)]; [discriminate E|].
    rewrite E in *. rewrite rev_unit. rewrite last_last in Heq.
    apply Z.ltb_ge in Heq. apply Z.leb_le. exact Heq.
Qed.

(** ** The root frame stays at the bottom of the stack *)

Lemma bottom_label_snoc_append (s0 : list tree) (t : tree) (c : child) :
  bottom_label (s0 ++ [append t c]) = bottom_label (s0 ++ [t]).
Proof.
  destruct s0 as [|x s0]; [|reflexivity]. destruct t. reflexivity.
Qed.

Lemma bottom_label_snoc_last (s0 : list tree) (n : string) (ks ks' : list child) :
  bottom_label (s0 ++ [Tree n ks']) = bottom_label (s0 ++ [Tree n ks]).
Proof.
  destruct s0 as [|x s0]; reflexivity.
Qed.

Lemma bottom_label_push (stk : list tree) (t : tree) (top : string) :
  bottom_label stk = Some top -> bottom_label (stk ++ [t]) = Some top.
Proof.
  destruct stk as [|x stk]; [discriminate|]. intros H. exact H.
Qed.

Lemma bottom_label_pop_frame (stk : list tree) :
  bottom_label (pop_frame stk) = bottom_label stk.
Proof.
  destruct (pop_frame_cases stk) as [[_ ->]|(s0 & p & t & -> & ->)].
  - reflexivity.
  - destruct s0 as [|x s0]; [|reflexivity]. destruct p. reflexivity.
Qed.

Lemma bottom_label_open (pol : policy) (st st1 : state) (tok itm : string)
    (top : string) :
  bottom_label (stack st) = Some top ->
  open_bracket pol st tok = Ok (st1, itm) ->
  bottom_label (stack st1) = Some top.
Proof.
  intros HI H. apply open_bracket_shape in H.
  destruct H as (_ & matched & _ &
                 [(-> & _)|[(_ & _ & -> & _)|(_ & _ & _ & _ & s0 & t & E & ->)]]).
  - exact HI.
  - apply bottom_label_push, HI.
  - rewrite bottom_label_snoc_append, <- E. exact HI.
Qed.

Lemma bottom_label_close (pol : policy) (st st' : state) (itm : string)
    (d : ascii) (top : string) :
  bottom_label (stack st) = Some top ->
  close_bracket pol st itm d = Ok st' ->
  bottom_label (stack st') = Some top.
Proof.
  intros HI H. apply close_bracket_shape in H.
  destruct H as (w & st1 & Hleaf & _ & _ & -> & _).
  apply (close_loop_invariant (fun stk _ => bottom_label stk = Some top)).
  - intros stk m ms _ Hs. destruct (cascade pol); [|exact Hs].
    rewrite bottom_label_pop_frame. exact Hs.
  - apply attach_leaf_shape in Hleaf.
    destruct Hleaf as (_ & [(_ & _ & _ & s0 & t & E & ->)|
                            [(_ & _ & _ & s0 & n & ks & t & E & ->)|
                             (_ & _ & s0 & t & E & ->)]]).
    + rewrite bottom_label_snoc_append, <- E. exact HI.
    + rewrite (bottom_label_snoc_last s0 n (ks ++ [Sub t])), <- E. exact HI.
    + rewrite bottom_label_snoc_append, <- E.
      destruct (cascade pol); [|exact HI].
      rewrite bottom_label_pop_frame. exact HI.
Qed.

(** Whatever the policy and the tokens, balanced or not, the stack is never
    empty and its bottom frame is the root labelled [top_node]. *)
Theorem root_frame_stays_at_the_bottom (pol : policy) (toks : list string)
    (st : state) :
  scan pol (init pol) toks = Ok st ->
  exists ks above, stack st = Tree (top_node pol) ks :: above.
Proof.
  intros H.
  assert (HI : bottom_label (stack st) = Some (top_node pol)).
  { apply (scan_invariant pol
             (fun st => bottom_label (stack st) = Some (top_node pol))
             (fun _ => True)) with (toks := toks) (st := init pol).
    - intros st0 tok st1 itm c _ _ _ HI Ho.
      apply (bottom_label_open pol st0 st1 tok itm _ HI Ho).
    - intros st0 itm d st' HI Hc.
      apply (bottom_label_close pol st0 st' itm d _ HI Hc).
    - apply Forall_forall. intros x _. exact I.
    - reflexivity.
    - exact H. }
  destruct (stack st) as [|[n ks] above]; [discriminate HI|].
  injection HI as ->. exists ks, above. reflexivity.
Qed.

Lemma root_frame_stays_at_the_bottom_witness :
  scan (Policy (Some ["NP"]) "S" false true true)
       (init (Policy (Some ["NP"]) "S" false true true))
       ["(NP"; "(NP"; "w))"; "x))"]
  = Ok (State (-2) (Some "NP")
          [Tree "S" [Sub (Tree "NP" [Sub (Tree "NP" [Leaf (Some "NP") "w"])]);
                     Leaf (Some "NP") "x"]] []) /\
  exists ks above,
    [Tree "S" [Sub (Tree "NP" [Sub (Tree "NP" [Leaf (Some "NP") "w"])]);
               Leaf (Some "NP") "x"]]
    = Tree "S" ks :: above.
Proof.
  split; [reflexivity|].
  apply (root_frame_stays_at_the_bottom
           (Policy (Some ["NP"]) "S" false true true)
           ["(NP"; "(NP"; "w))"; "x))"]
           (State (-2) (Some "NP")
              [Tree "S" [Sub (Tree "NP" [Sub (Tree "NP" [Leaf (Some "NP") "w"])]);
                         Leaf (Some "NP") "x"]] [])
           eq_refl).
Defined.

(** ** Markers and frames *)

Lemma pop_frame_length (stk : list tree) :
  (length stk - 1 <= length (pop_frame stk))%nat /\
  (stk <> [] -> (1 <= length (pop_frame stk))%nat).
Proof.
  destruct (pop_frame_cases stk) as [[Hl ->]|(s0 & p & t & -> & ->)].
  - split; [lia|]. intros Hne. destruct stk; [contradiction | simpl; lia].
  - rewrite !length_app. simpl. split; intros; lia.
Qed.

Lemma markers_bounded_open (pol : policy) (st st1 : state) (tok itm : string) :
  markers_bounded pol (stack st) (inTag st) ->
  open_bracket pol st tok = Ok (st1, itm) ->
  markers_bounded pol (stack st1) (inTag st1).
Proof.
  intros (Hne & Hc & Hf) H. apply open_bracket_shape in H.
  destruct H as (_ & matched & _ &
                 [(-> & -> & _)|[(_ & Hcas & -> & ->)|
                                 (_ & Hcas & Ht & -> & s0 & t & E & ->)]]).
  - repeat split; assumption.
  - repeat split.
    + destruct (stack st); discriminate.
    + intros _. rewrite !length_app. simpl. specialize (Hc Hcas). lia.
    + intros Hf'. rewrite Hcas in Hf'. discriminate Hf'.
  - repeat split.
    + destruct s0; discriminate.
    + intros Hc'. rewrite Hcas in Hc'. discriminate Hc'.
    + intros _. simpl. lia.
Qed.

Lemma markers_bounded_turn (pol : policy) (stk : list tree) (tags : list Z) :
  markers_bounded pol stk tags ->
  markers_bounded pol (if cascade pol then pop_frame stk else stk)
                  (Py.drop_end 2 tags).
Proof.
  intros (Hne & Hc & Hf). unfold markers_bounded.
  rewrite drop_end_length.
  destruct (cascade pol) eqn:Hcas.
  - destruct (pop_frame_length stk) as [Hl Hpos]. specialize (Hpos Hne).
    repeat split.
    + apply pop_frame_nonempty, Hne.
    + intros _. specialize (Hc eq_refl). lia.
    + intros Hf'. discriminate Hf'.
  - repeat split.
    + exact Hne.
    + intros Hc'. discriminate Hc'.
    + intros _. specialize (Hf eq_refl). lia.
Qed.

Lemma markers_bounded_leaf (pol : policy) (st st1 : state) (w : string) :
  markers_bounded pol (stack st) (inTag st) ->
  attach_leaf pol st w = Ok st1 ->
  markers_bounded pol (stack st1) (inTag st1).
Proof.
  intros HI H. apply attach_leaf_shape in H.
  destruct H as (_ & [(_ & _ & -> & s0 & t & E & ->)|
                      [(_ & _ & -> & s0 & n & ks & t & E & ->)|
                       (_ & -> & s0 & t & E & ->)]]).
  - destruct HI as (Hne & Hc & Hf). rewrite E in Hc.
    unfold markers_bounded. rewrite !length_app in *. simpl in *.
    repeat split; try assumption. destruct s0; discriminate.
  - destruct HI as (Hne & Hc & Hf). rewrite E in Hc.
    unfold markers_bounded. rewrite !length_app in *. simpl in *.
    repeat split; try assumption. destruct s0; discriminate.
  - apply markers_bounded_turn in HI. rewrite E in HI.
    destruct HI as (Hne & Hc & Hf).
    unfold markers_bounded. rewrite !length_app in *. simpl in *.
    repeat split; try assumption. destruct s0; discriminate.
Qed.

Lemma markers_bounded_close (pol : policy) (st st' : state) (itm : string)
    (d : ascii) :
  markers_bounded pol (stack st) (inTag st) ->
  close_bracket pol st itm d = Ok st' ->
  markers_bounded pol (stack st') (inTag st').
Proof.
  intros HI H. apply close_bracket_shape in H.
  destruct H as (w & st1 & Hleaf & _ & _ & -> & ->).
  apply (close_loop_invariant (markers_bounded pol)).
  - intros stk m ms _ HR. apply markers_bounded_turn, HR.
  - apply (markers_bounded_leaf pol st st1 w HI Hleaf).
Qed.

(** The markers never outnumber the chunk frames: with cascading there
    are fewer markers than frames on the stack (the root has none), and
    without it [inTag] never holds more than one marker. *)
Theorem markers_never_outnumber_frames (pol : policy) (toks : list string)
    (st : state) :
  scan pol (init pol) toks = Ok st ->
  (cascade pol = true -> (length (inTag st) < length (stack st))%nat) /\
  (cascade pol = false -> (length (inTag st) <= 1)%nat).
Proof.
  intros H.
  assert (HI : markers_bounded pol (stack st) (inTag st)).
  { apply (scan_invariant pol
             (fun st => markers_bounded pol (stack st) (inTag st))
             (fun _ => True)) with (toks := toks) (st := init pol).
    - intros st0 tok st1 itm c _ _ _ HI Ho.
      apply (markers_bounded_open pol st0 st1 tok itm HI Ho).
    - intros st0 itm d st' HI Hc.
      apply (markers_bounded_close pol st0 st' itm d HI Hc).
    - apply Forall_forall. intros x _. exact I.
    - repeat split; simpl; intros; try lia. discriminate.
    - exact H. }
  destruct HI as (_ & Hc & Hf). split; assumption.
Qed.

Lemma markers_never_outnumber_frames_witness :
  scan (Policy (Some ["NP"]) "S" false true true)
       (init (Policy (Some ["NP"]) "S" false true true))
       ["(NP"; "(NP"; "(NP"; "w)"]
  = Ok (State 2 (Some "NP")
          [Tree "S" []; Tree "NP" [];
           Tree "NP" [Sub (Tree "NP" [Leaf (Some "NP") "w"])]]
          [1%Z]) /\
  (length [1%Z] < 3)%nat.
Proof.
  split; [reflexivity|].
  apply (proj1 (markers_never_outnumber_frames
                  (Policy (Some ["NP"]) "S" false true true)
                  ["(NP"; "(NP"; "(NP"; "w)"]
                  (State 2 (Some "NP")
                     [Tree "S" []; Tree "NP" [];
                      Tree "NP" [Sub (Tree "NP" [Leaf (Some "NP") "w"])]]
                     [1%Z])
                  eq_refl) eq_refl).
Defined.

(** ** The markers are ordered and below the depth *)

Lemma Forall_firstn {A : Type} (P : A -> Prop) (n : nat) (l : list A) :
  Forall P l -> Forall P (firstn n l).
Proof.
  intros H. revert n. induction H as [|x l Hx Hl IH]; intros [|n]; simpl;
    constructor; auto.
Qed.

Lemma StronglySorted_firstn {A : Type} (R : A -> A -> Prop) (n : nat)
    (l : list A) :
  StronglySorted R l -> StronglySorted R (firstn n l).
Proof.
  intros H. revert n. induction H as [|x l Hl IH Hx]; intros [|n]; simpl;
    constructor; auto.
  apply Forall_firstn, Hx.
Qed.

Lemma StronglySorted_snoc (l : list Z) (x : Z) :
  StronglySorted Z.lt l ->
  Forall (fun m => (m < x)%Z) l ->
  StronglySorted Z.lt (l ++ [x]).
Proof.
  induction 1 as [|a l Hl IH Ha]; intros Hx; simpl.
  - repeat constructor.
  - inversion Hx as [|? ? Hax Hlx]; subst. constructor.
    + apply IH, Hlx.
    + apply Forall_app. split; [exact Ha|]. constructor; [exact Hax|constructor].
Qed.

Lemma StronglySorted_last_bound (l : list Z) (x b : Z) :
  StronglySorted Z.lt (l ++ [x]) ->
  (x <= b)%Z ->
  Forall (fun m => (m <= b)%Z) (l ++ [x]).
Proof.
  induction l as [|a l IH]; simpl; intros Hs Hx.
  - constructor; [exact Hx | constructor].
  - inversion Hs as [|? ? Hl Ha]; subst. constructor.
    + apply Forall_app in Ha. destruct Ha as [_ Ha].
      inversion Ha; subst. lia.
    + apply IH; assumption.
Qed.

Lemma marker_le_bound (tags : list Z) (b : Z) :
  StronglySorted Z.lt tags ->
  marker_le tags b = true \/ tags = [] ->
  Forall (fun m => (m <= b)%Z) tags.
Proof.
  intros Hs [Hle| ->]; [|constructor].
  unfold marker_le in Hle.
  destruct (snoc_cases tags) as [->|(l & x & ->)]; [constructor|].
  rewrite rev_unit in Hle. apply Z.leb_le in Hle.
  apply StronglySorted_last_bound; assumption.
Qed.

Lemma markers_inv_open (pol : policy) (st st1 : state) (tok itm : string) :
  markers_inv st ->
  open_bracket pol st tok = Ok (st1, itm) ->
  markers_inv st1.
Proof.
  unfold markers_inv. intros [Hs Hb] H. apply open_bracket_shape in H.
  destruct H as (-> & matched & _ &
                 [(_ & -> & _)|[(_ & _ & _ & ->)|(_ & _ & _ & -> & _)]]).
  - split; [exact Hs|].
    apply Forall_impl with (2 := Hb). intros m Hm. lia.
  - split.
    + apply StronglySorted_snoc; [exact Hs|].
      apply Forall_impl with (2 := Hb). intros m Hm. lia.
    + apply Forall_app. split.
      * apply Forall_impl with (2 := Hb). intros m Hm. lia.
      * constructor; [lia | constructor].
  - split.
    + repeat constructor.
    + constructor; [lia | constructor].
Qed.

Lemma markers_inv_close (pol : policy) (st st' : state) (itm : string)
    (d : ascii) :
  markers_inv st ->
  close_bracket pol st itm d = Ok st' ->
  markers_inv st'.
Proof.
  unfold markers_inv. intros [Hs _] H. apply close_bracket_shape in H.
  destruct H as (w & st1 & Hleaf & _ & _ & _ & Ht).
  assert (Hs1 : StronglySorted Z.lt (inTag st1)).
  { apply attach_leaf_shape in Hleaf.
    destruct Hleaf as (_ & [(_ & _ & -> & _)|[(_ & _ & -> & _)|(_ & -> & _)]]);
      try exact Hs.
    apply StronglySorted_firstn, Hs. }
  assert (Hs' : StronglySorted Z.lt (inTag st')).
  { rewrite Ht.
    apply (close_loop_invariant (fun _ tags => StronglySorted Z.lt tags)).
    - intros stk m ms _ HR. apply StronglySorted_firstn, HR.
    - exact Hs1. }
  split; [exact Hs'|].
  apply marker_le_bound; [exact Hs'|]. rewrite Ht. apply close_loop_exit.
Qed.

(** After every prefix of a sentence the markers grow strictly towards the
    top of [inTag] and none exceeds the bracket depth, and the same holds
    when the next token has opened its bracket.  So when a leaf is attached
    the test [len(inTag) > 0 and inTag[-1] <= bracket] fails only for an
    empty [inTag]: the leaf goes outside a chunk only when no marker is
    held. *)
Theorem markers_ordered_below_depth (pol : policy) (toks : list string)
    (st : state) :
  scan pol (init pol) toks = Ok st ->
  markers_inv st /\
  (marker_le (inTag st) (bracket st) = false -> inTag st = []) /\
  (forall tok st1 itm,
      open_bracket pol st tok = Ok (st1, itm) ->
      markers_inv st1 /\
      (marker_le (inTag st1) (bracket st1) = false -> inTag st1 = [])).
Proof.
  intros H.
  assert (Hempty : forall s, markers_inv s ->
                     marker_le (inTag s) (bracket s) = false -> inTag s = []).
  { intros s [_ Hb] Hle. unfold marker_le in Hle.
    destruct (snoc_cases (inTag s)) as [E|(l & x & E)]; [exact E|].
    rewrite E in *. rewrite rev_unit in Hle. apply Z.leb_gt in Hle.
    apply Forall_app in Hb. destruct Hb as [_ Hb]. inversion Hb; subst. lia. }
  assert (HI : markers_inv st).
  { apply (scan_invariant pol markers_inv (fun _ => True))
      with (toks := toks) (st := init pol).
    - intros st0 tok st1 itm c _ _ _ HI Ho.
      apply (markers_inv_open pol st0 st1 tok itm HI Ho).
    - intros st0 itm d st' HI Hc.
      apply (markers_inv_close pol st0 st' itm d HI Hc).
    - apply Forall_forall. intros x _. exact I.
    - split; constructor.
    - exact H. }
  split; [exact HI|]. split; [apply Hempty, HI|].
  intros tok st1 itm Ho.
  assert (HI1 : markers_inv st1)
    by apply (markers_inv_open pol st st1 tok itm HI Ho).
  split; [exact HI1 | apply Hempty, HI1].
Qed.

Lemma markers_ordered_below_depth_witness :
  scan (Policy (Some ["NP"; "PP"]) "S" false true true)
       (init (Policy (Some ["NP"; "PP"]) "S" false true true))
       ["(PP"; "(CONJP"; "(NP"; "(NP"]
  = Ok (State 4 (Some "NP")
          [Tree "S" []; Tree "PP" []; Tree "NP" []; Tree "NP" []]
          [1; 3; 4]%Z) /\
  StronglySorted Z.lt [1; 3; 4]%Z /\
  Forall (fun m => (m <= 4)%Z) [1; 3; 4]%Z.
Proof.
  split; [reflexivity|].
  apply (proj1 (markers_ordered_below_depth
                  (Policy (Some ["NP"; "PP"]) "S" false true true)
                  ["(PP"; "(CONJP"; "(NP"; "(NP"]
                  (State 4 (Some "NP")
                     [Tree "S" []; Tree "PP" []; Tree "NP" []; Tree "NP" []]
                     [1; 3; 4]%Z)
                  eq_refl)).
Defined.

(** ** Without cascading the chunks are flat *)

Lemma app_singleton_inv {A : Type} (s0 : list A) (t x : A) :
  s0 ++ [t] = [x] -> s0 = [] /\ t = x.
Proof.
  destruct s0 as [|y s0]; simpl; intros H.
  - injection H as ->. split; reflexivity.
  - injection H as _ H. destruct s0; discriminate H.
Qed.

Lemma flat_open (pol : policy) (st st1 : state) (tok itm : string)
    (kids : list child) :
  cascade pol = false ->
  stack st = [Tree (top_node pol) kids] ->
  forallb flat_child kids = true ->
  open_bracket pol st tok = Ok (st1, itm) ->
  exists kids1,
    stack st1 = [Tree (top_node pol) kids1] /\
    forallb flat_child kids1 = true.
Proof.
  intros Hc Hs Hflat H.
  destruct (open_bracket_single_root pol st st1 tok itm kids Hc Hs H)
    as [E|[_ E]]; eexists; (split; [exact E|]).
  - exact Hflat.
  - rewrite forallb_app, Hflat. reflexivity.
Qed.

Lemma flat_leaf (pol : policy) (st st1 : state) (w : string)
    (kids : list child) :
  cascade pol = false ->
  stack st = [Tree (top_node pol) kids] ->
  forallb flat_child kids = true ->
  attach_leaf pol st w = Ok st1 ->
  exists kids1,
    stack st1 = [Tree (top_node pol) kids1] /\
    forallb flat_child kids1 = true.
Proof.
  intros Hc Hs Hflat H. apply attach_leaf_shape in H.
  destruct H as (_ & [(_ & Hc' & _)|
                      [(_ & _ & _ & s0 & n & ks & t & E & ->)|
                       (_ & _ & s0 & t & E & ->)]]).
  - rewrite Hc in Hc'. discriminate Hc'.
  - rewrite Hs in E. symmetry in E. apply app_singleton_inv in E.
    destruct E as [-> E]. injection E as -> <-.
    eexists. split; [reflexivity|].
    rewrite forallb_app in Hflat. apply andb_prop in Hflat.
    destruct Hflat as [Hks Ht]. rewrite forallb_app, Hks. simpl in *.
    destruct t as [m ms]. simpl. rewrite forallb_app.
    rewrite andb_true_r in Ht. rewrite Ht. reflexivity.
  - rewrite Hc, Hs in E. symmetry in E. apply app_singleton_inv in E.
    destruct E as [-> ->]. eexists. split; [reflexivity|].
    rewrite forallb_app, Hflat. reflexivity.
Qed.

(** Without cascading the sentence comes back as the root alone, and each
    of its children is a leaf or a chunk that holds leaves only: no chunk
    is nested in a chunk. *)
Theorem flat_mode_chunks_hold_leaves_only (pol : policy) (toks : list string)
    (st : state) :
  cascade pol = false ->
  scan pol (init pol) toks = Ok st ->
  exists kids,
    stack st = [Tree (top_node pol) kids] /\
    forallb flat_child kids = true.
Proof.
  intros Hc H.
  apply (scan_invariant pol
           (fun st => exists kids,
                stack st = [Tree (top_node pol) kids] /\
                forallb flat_child kids = true)
           (fun _ => True)) with (toks := toks) (st := init pol).
  - intros st0 tok st1 itm c _ _ _ (kids & Hs & Hflat) Ho.
    apply (flat_open pol st0 st1 tok itm kids Hc Hs Hflat Ho).
  - intros st0 itm d st' (kids & Hs & Hflat) Hcl.
    apply close_bracket_shape in Hcl.
    destruct Hcl as (w & st1 & Hleaf & _ & _ & Hstk & _).
    destruct (flat_leaf pol st0 st1 w kids Hc Hs Hflat Hleaf)
      as (kids1 & Hs1 & Hflat1).
    exists kids1. split; [|exact Hflat1].
    rewrite Hstk, close_loop_flat by exact Hc. exact Hs1.
  - apply Forall_forall. intros x _. exact I.
  - exists []. split; reflexivity.
  - exact H.
Qed.

Lemma flat_mode_chunks_hold_leaves_only_witness :
  cascade (Policy (Some ["NP"]) "S" true true false) = false /\
  scan (Policy (Some ["NP"]) "S" true true false)
       (init (Policy (Some ["NP"]) "S" true true false))
       ["(NP-NOM"; "(NP-GEN"; "(N^G"; "cyninges))"; "(N^N"; "sunu))"]
  = Ok (State 0 (Some "N^N")
          [Tree "S" [Sub (Tree "NP" [Leaf (Some "N^G") "cyninges";
                                     Leaf (Some "N^N") "sunu"])]] []) /\
  exists kids,
    [Tree "S" [Sub (Tree "NP" [Leaf (Some "N^G") "cyninges";
                               Leaf (Some "N^N") "sunu"])]]
    = [Tree "S" kids] /\
    forallb flat_child kids = true.
Proof.
  split; [reflexivity|]. split; [reflexivity|].
  apply (flat_mode_chunks_hold_leaves_only
           (Policy (Some ["NP"]) "S" true true false)
           ["(NP-NOM"; "(NP-GEN"; "(N^G"; "cyninges))"; "(N^N"; "sunu))"]
           (State 0 (Some "N^N")
              [Tree "S" [Sub (Tree "NP" [Leaf (Some "N^G") "cyninges";
                                         Leaf (Some "N^N") "sunu"])]] [])
           eq_refl eq_refl).
Defined.

(** ** Only matched labels become chunk nodes *)

Lemma chunk_labels_append_leaf (t : tree) (a : option string) (w : string) :
  chunk_labels (append t (Leaf a w)) = chunk_labels t.
Proof.
  destruct t as [n ks]. simpl. rewrite flat_map_app. simpl.
  apply app_nil_r.
Qed.

Lemma chunk_labels_append_sub (t c : tree) :
  chunk_labels (append t (Sub c)) = chunk_labels t ++ frame_labels c.
Proof.
  destruct t as [n ks], c as [m ms]. simpl. rewrite flat_map_app. simpl.
  rewrite app_nil_r. reflexivity.
Qed.

Lemma label_append (t : tree) (c : child) : label (append t c) = label t.
Proof.
  destruct t. reflexivity.
Qed.

Lemma stack_labels_snoc (s0 : list tree) (t : tree) :
  stack_labels (s0 ++ [t]) = stack_labels s0 ++ frame_labels t.
Proof.
  unfold stack_labels. rewrite flat_map_app. simpl. rewrite app_nil_r.
  reflexivity.
Qed.

Lemma stack_labels_append_leaf (s0 : list tree) (t : tree) (a : option string)
    (w : string) :
  stack_labels (s0 ++ [append t (Leaf a w)]) = stack_labels (s0 ++ [t]).
Proof.
  rewrite !stack_labels_snoc. unfold frame_labels.
  rewrite label_append, chunk_labels_append_leaf. reflexivity.
Qed.

Lemma stack_labels_append_sub (s0 : list tree) (t c : tree) :
  stack_labels (s0 ++ [append t (Sub c)])
  = stack_labels (s0 ++ [t]) ++ frame_labels c.
Proof.
  rewrite !stack_labels_snoc. unfold frame_labels at 1.
  rewrite label_append, chunk_labels_append_sub.
  unfold frame_labels at 2. simpl. rewrite <- !app_assoc. reflexivity.
Qed.

Lemma stack_labels_append_last (s0 : list tree) (n : string) (ks : list child)
    (t : tree) (a : option string) (w : string) :
  stack_labels (s0 ++ [Tree n (ks ++ [Sub (append t (Leaf a w))])])
  = stack_labels (s0 ++ [Tree n (ks ++ [Sub t])]).
Proof.
  rewrite !stack_labels_snoc. unfold frame_labels. simpl.
  rewrite !flat_map_app. simpl.
  rewrite chunk_labels_append_leaf. destruct t. reflexivity.
Qed.

Lemma stack_labels_pop_frame (stk : list tree) :
  stack_labels (pop_frame stk) = stack_labels stk.
Proof.
  destruct (pop_frame_cases stk) as [[_ ->]|(s0 & p & t & -> & ->)].
  - reflexivity.
  - rewrite stack_labels_append_sub.
    replace (s0 ++ [p; t]) with ((s0 ++ [p]) ++ [t])
      by (rewrite <- app_assoc; reflexivity).
    rewrite (stack_labels_snoc (s0 ++ [p])). reflexivity.
Qed.

Lemma partial_loop_collapse_in (cts : list string) (itm : string) :
  fst (partial_loop true cts false itm) = true ->
  In (snd (partial_loop true cts false itm)) cts.
Proof.
  induction cts as [|e rest IH]; intros H.
  - discriminate H.
  - rewrite partial_loop_unfold in *. destruct (String.prefix e itm).
    + destruct (partial_loop_label true rest true e) as [->|[_ Hin]].
      * left. reflexivity.
      * right. exact Hin.
    + right. apply IH, H.
Qed.

(** What a match says about the label of the new chunk. *)
Lemma match_label_true (pol : policy) (itm l : string) :
  match_label pol itm = Ok (true, l) ->
  exists cts,
    chunk_types pol = Some cts /\
    (partial_match pol = false -> l = itm /\ In l cts) /\
    (partial_match pol = true ->
     (exists e, In e cts /\ String.prefix e itm = true) /\
     (collapse_partials pol = true -> In l cts) /\
     (collapse_partials pol = false -> l = itm)).
Proof.
  unfold match_label. intros H. destruct (partial_match pol).
  - destruct (chunk_types pol) as [cts|]; [|discriminate H].
    injection H as H. exists cts. split; [reflexivity|].
    split; [discriminate|]. intros _.
    assert (Hf : fst (partial_loop (collapse_partials pol) cts false itm) = true)
      by (rewrite H; reflexivity).
    assert (Hs : snd (partial_loop (collapse_partials pol) cts false itm) = l)
      by (rewrite H; reflexivity).
    split; [|split].
    + rewrite partial_loop_fst in Hf. apply existsb_exists in Hf. exact Hf.
    + intros Hc. rewrite Hc in *. rewrite <- Hs.
      apply partial_loop_collapse_in, Hf.
    + intros Hc. rewrite Hc in *. rewrite <- Hs. apply partial_loop_plain.
  - destruct (chunk_types pol) as [cts|]; [|discriminate H].
    injection H as H ->. exists cts. split; [reflexivity|].
    split; [|discriminate]. intros _. split; [reflexivity|].
    apply existsb_exists in H. destruct H as (x & Hx & E).
    apply String.eqb_eq in E. subst x. exact Hx.
Qed.

Lemma stack_labels_open (pol : policy) (st st1 : state) (tok itm : string) :
  open_bracket pol st tok = Ok (st1, itm) ->
  stack_labels (stack st1) = stack_labels (stack st) \/
  (match_label pol (Py.tail tok) = Ok (true, itm) /\
   stack_labels (stack st1) = stack_labels (stack st) ++ [itm]).
Proof.
  intros H. apply open_bracket_shape in H.
  destruct H as (_ & matched & Hm &
                 [(-> & _)|[(-> & _ & -> & _)|
                            (-> & _ & _ & _ & s0 & t & -> & ->)]]).
  - left. reflexivity.
  - right. split; [exact Hm|]. rewrite stack_labels_snoc. reflexivity.
  - right. split; [exact Hm|]. rewrite stack_labels_append_sub. reflexivity.
Qed.

Lemma stack_labels_close (pol : policy) (st st' : state) (itm : string)
    (d : ascii) :
  close_bracket pol st itm d = Ok st' ->
  stack_labels (stack st') = stack_labels (stack st).
Proof.
  intros H. apply close_bracket_shape in H.
  destruct H as (w & st1 & Hleaf & _ & _ & -> & _).
  apply (close_loop_invariant
           (fun stk _ => stack_labels stk = stack_labels (stack st))).
  - intros stk m ms _ HR. destruct (cascade pol); [|exact HR].
    rewrite stack_labels_pop_frame. exact HR.
  - apply attach_leaf_shape in Hleaf.
    destruct Hleaf as (_ & [(_ & _ & _ & s0 & t & -> & ->)|
                            [(_ & _ & _ & s0 & n & ks & t & -> & ->)|
                             (_ & _ & s0 & t & E & ->)]]).
    + apply stack_labels_append_leaf.
    + apply stack_labels_append_last.
    + rewrite stack_labels_append_leaf, <- E.
      destruct (cascade pol); [apply stack_labels_pop_frame | reflexivity].
Qed.

(** The labels found in the returned frames are [top_node], for the root,
    followed by one label per chunk node, and every chunk label was matched
    by the policy on the label written after the bracket of some opening
    token of the sentence.  In exact mode it is that written label and an
    entry of [chunk_types]; in partial mode some entry is a prefix of the
    written label, and the chunk label is an entry under
    [collapse_partials] and the written label otherwise. *)
Theorem chunk_nodes_carry_matched_labels (pol : policy) (toks : list string)
    (st : state) :
  scan pol (init pol) toks = Ok st ->
  exists ls,
    stack_labels (stack st) = top_node pol :: ls /\
    forall l, In l ls ->
      exists tok c cts,
        In tok toks /\ Py.first tok = Ok c /\ L_BRACKET c = true /\
        chunk_types pol = Some cts /\
        match_label pol (Py.tail tok) = Ok (true, l) /\
        (partial_match pol = false -> l = Py.tail tok /\ In l cts) /\
        (partial_match pol = true ->
         (exists e, In e cts /\ String.prefix e (Py.tail tok) = true) /\
         (collapse_partials pol = true -> In l cts) /\
         (collapse_partials pol = false -> l = Py.tail tok)).
Proof.
  intros H.
  set (Q := fun l : string =>
              exists tok c, In tok toks /\ Py.first tok = Ok c /\
                            L_BRACKET c = true /\
                            match_label pol (Py.tail tok) = Ok (true, l)).
  assert (HI : exists ls, stack_labels (stack st) = top_node pol :: ls /\
                          Forall Q ls).
  { apply (scan_invariant pol
             (fun st => exists ls,
                  stack_labels (stack st) = top_node pol :: ls /\ Forall Q ls)
             (fun tok => In tok toks)) with (toks := toks) (st := init pol).
    - intros st0 tok st1 itm c Hin Hc Hb (ls & Hl & HQ) Ho.
      destruct (stack_labels_open pol st0 st1 tok itm Ho) as [E|[Hm E]].
      + exists ls. rewrite E. split; assumption.
      + exists (ls ++ [itm]). rewrite E, Hl. split; [reflexivity|].
        apply Forall_app. split; [exact HQ|].
        constructor; [|constructor]. exists tok, c. repeat split; assumption.
    - intros st0 itm d st' (ls & Hl & HQ) Hc.
      exists ls. rewrite (stack_labels_close pol st0 st' itm d Hc).
      split; assumption.
    - apply Forall_forall. intros x Hx. exact Hx.
    - exists []. split; [reflexivity | constructor].
    - exact H. }
  destruct HI as (ls & Hl & HQ). exists ls. split; [exact Hl|].
  intros l Hin. rewrite Forall_forall in HQ.
  destruct (HQ l Hin) as (tok & c & Htok & Hc & Hb & Hm).
  destruct (match_label_true pol (Py.tail tok) l Hm) as (cts & Hct & Hex & Hpa).
  exists tok, c, cts.
  split; [exact Htok|]. split; [exact Hc|]. split; [exact Hb|].
  split; [exact Hct|]. split; [exact Hm|]. split; [exact Hex | exact Hpa].
Qed.

Lemma chunk_nodes_carry_matched_labels_witness :
  scan (Policy (Some ["NP"; "PP"]) "S" true true true)
       (init (Policy (Some ["NP"; "PP"]) "S" true true true))
       ["(PP"; "(P"; "on)"; "(NP-DAT"; "(N"; "wisan)))"]
  = Ok (State 0 (Some "N")
          [Tree "S" [];
           Tree "PP" [Leaf (Some "P") "on";
                      Sub (Tree "NP" [Leaf (Some "N") "wisan"])]]
          []) /\
  exists ls,
    stack_labels
      [Tree "S" [];
       Tree "PP" [Leaf (Some "P") "on";
                  Sub (Tree "NP" [Leaf (Some "N") "wisan"])]]
    = "S" :: ls.
Proof.
  split; [reflexivity|].
  destruct (chunk_nodes_carry_matched_labels
              (Policy (Some ["NP"; "PP"]) "S" true true true)
              ["(PP"; "(P"; "on)"; "(NP-DAT"; "(N"; "wisan)))"]
              (State 0 (Some "N")
                 [Tree "S" [];
                  Tree "PP" [Leaf (Some "P") "on";
                             Sub (Tree "NP" [Leaf (Some "N") "wisan"])]]
                 [])
              eq_refl) as (ls & Hl & _).
  exists ls. exact Hl.
Defined.

(** ** The policy groups the leaves and does not change them *)

Lemma match_label_plain (pol : policy) (itm : string) :
  plain pol = true ->
  policy_ok pol = true ->
  exists matched, match_label pol itm = Ok (matched, itm).
Proof.
  unfold plain, policy_ok, match_label. intros Hpl Hok.
  destruct (partial_match pol).
  - destruct (chunk_types pol) as [cts|]; [|discriminate Hok].
    simpl in Hpl. apply negb_true_iff in Hpl. rewrite Hpl.
    exists (fst (partial_loop false cts false itm)).
    rewrite <- (partial_loop_plain cts false itm) at 3.
    destruct (partial_loop false cts false itm). reflexivity.
  - destruct (chunk_types pol); eexists; reflexivity.
Qed.

Lemma leaf_seq_same_labels (p1 p2 : policy) (toks : list string) :
  (forall itm,
      ('(_, l) <- match_label p1 itm ;; Ok l)
      = ('(_, l) <- match_label p2 itm ;; Ok l)) ->
  forall cur, leaf_seq p1 cur toks = leaf_seq p2 cur toks.
Proof.
  intros Hsame. induction toks as [|tok rest IH]; intros cur.
  - reflexivity.
  - simpl.
    assert (Hr : rebind p1 cur tok = rebind p2 cur tok).
    { unfold rebind. destruct (Py.first tok) as [c|e]; [|reflexivity].
      cbn [bind]. destruct (L_BRACKET c); [|reflexivity].
      specialize (Hsame (Py.tail tok)).
      destruct (match_label p1 (Py.tail tok)) as [[m1 l1]|e1];
        destruct (match_label p2 (Py.tail tok)) as [[m2 l2]|e2];
        simpl in *; congruence. }
    rewrite Hr. destruct (rebind p2 cur tok) as [[cur' itm]|e]; [|reflexivity].
    cbn [bind].
    destruct (closing_word itm) as [w|e]; [|reflexivity].
    cbn [bind]. rewrite IH. reflexivity.
Qed.

(** Two readable policies that rebind labels alike flatten a readable
    sentence to the same leaves: [cascade] and [top_node] never change the
    leaves, and neither does [chunk_types] or [partial_match] unless labels
    are collapsed. *)
Theorem leaves_do_not_depend_on_grouping (p1 p2 : policy)
    (toks : list string) :
  policy_ok p1 = true ->
  policy_ok p2 = true ->
  forallb token_ok toks = true ->
  (chunk_types p1 = chunk_types p2 /\
   partial_match p1 = partial_match p2 /\
   collapse_partials p1 = collapse_partials p2) \/
  (plain p1 = true /\ plain p2 = true) ->
  exists s1 s2,
    chunk_sentence p1 toks = Ok s1 /\
    chunk_sentence p2 toks = Ok s2 /\
    flat_map leaves s1 = flat_map leaves s2.
Proof.
  intros Hok1 Hok2 Ht Hsame.
  assert (Hl : forall itm,
             ('(_, l) <- match_label p1 itm ;; Ok l)
             = ('(_, l) <- match_label p2 itm ;; Ok l)).
  { intros itm. destruct Hsame as [(Hc & Hp & Hcp)|[Hpl1 Hpl2]].
    - unfold match_label. rewrite Hc, Hp, Hcp. reflexivity.
    - destruct (match_label_plain p1 itm Hpl1 Hok1) as (m1 & ->).
      destruct (match_label_plain p2 itm Hpl2 Hok2) as (m2 & ->).
      reflexivity. }
  destruct (leaf_seq_total p1 toks Hok1 Ht None) as (ls & Hls & _).
  destruct (chunk_sentence_leaves p1 toks ls Hls) as (s1 & Hs1 & Hl1).
  rewrite (leaf_seq_same_labels p1 p2 toks Hl None) in Hls.
  destruct (chunk_sentence_leaves p2 toks ls Hls) as (s2 & Hs2 & Hl2).
  exists s1, s2. repeat split; try assumption.
  unfold stack_leaves in *. rewrite Hl1, Hl2. reflexivity.
Qed.

Lemma leaves_do_not_depend_on_grouping_witness :
  policy_ok (Policy (Some ["NP"; "PP"]) "S" true false true) = true /\
  policy_ok (Policy None "TOP" false true false) = true /\
  forallb token_ok ["(PP"; "(P"; "on)"; "(NP-DAT"; "(N"; "wisan)))"] = true /\
  exists s1 s2,
    chunk_sentence (Policy (Some ["NP"; "PP"]) "S" true false true)
                   ["(PP"; "(P"; "on)"; "(NP-DAT"; "(N"; "wisan)))"] = Ok s1 /\
    chunk_sentence (Policy None "TOP" false true false)
                   ["(PP"; "(P"; "on)"; "(NP-DAT"; "(N"; "wisan)))"] = Ok s2 /\
    flat_map leaves s1 = flat_map leaves s2.
Proof.
  split; [reflexivity|]. split; [reflexivity|]. split; [reflexivity|].
  apply (leaves_do_not_depend_on_grouping
           (Policy (Some ["NP"; "PP"]) "S" true false true)
           (Policy None "TOP" false true false)
           ["(PP"; "(P"; "on)"; "(NP-DAT"; "(N"; "wisan)))"]
           eq_refl eq_refl eq_refl (or_intror (conj eq_refl eq_refl))).
Defined.

(** ** A sentence without a matching label *)

Lemma process_token_unmatched_token (pol : policy) (st st' : state)
    (tok : string) (n : string) (ks : list child) :
  unmatched pol tok = true ->
  stack st = [Tree n ks] ->
  inTag st = [] ->
  process_token pol st tok = Ok st' ->
  exists itm w,
    rebind pol (itmType st) tok = Ok (itmType st', itm) /\
    closing_word itm = Ok w /\
    inTag st' = [] /\
    stack st' = [Tree n (ks ++ match w with
                               | Some w => [Leaf (itmType st') w]
                               | None => []
                               end)].
Proof.
  intros Hun Hs Ht H.
  destruct (process_token_inv pol st st' tok H) as (itm & w & Hr & Hw & _).
  exists itm, w. split; [exact Hr|]. split; [exact Hw|].
  apply process_token_shape in H.
  destruct H as (c & st1 & itm1 & d & Hc & Hopen & Hd & Hclose).
  assert (H1 : stack st1 = [Tree n ks] /\ inTag st1 = [] /\ itm1 = itm /\
               itmType st1 = itmType st').
  { unfold rebind in Hr. rewrite Hc in Hr. cbn [bind] in Hr.
    destruct Hopen as [[Hb Ho]|[Hb [-> ->]]].
    - rewrite Hb in Hr. inv_bind Hr. destruct a as [m l].
      injection Hr as Hty <-.
      destruct tok as [|c0 r]; [discriminate Hc|]. injection Hc as ->.
      simpl in Hun, Ha. rewrite Hb, Ha in Hun.
      destruct m; [discriminate Hun|].
      pose proof (open_bracket_inv pol st st1 _ _ Ho) as (m' & Hm' & Hty1 & _).
      simpl in Hm'. rewrite Ha in Hm'. injection Hm' as <- <-.
      apply open_bracket_shape in Ho.
      destruct Ho as (_ & m2 & Hm2 &
                      [(-> & -> & _)|[(E & _)|(E & _)]]).
      + rewrite Hty1. repeat split; assumption.
      + simpl in Hm2. rewrite Ha in Hm2. subst m2. discriminate Hm2.
      + simpl in Hm2. rewrite Ha in Hm2. subst m2. discriminate Hm2.
    - rewrite Hb in Hr. injection Hr as Hty <-. repeat split; assumption. }
  destruct H1 as (Hs1 & Ht1 & -> & Hty).
  unfold closing_word in Hw. rewrite Hd in Hw. cbn [bind] in Hw.
  destruct Hclose as [[Hb Hcl]|[Hb ->]].
  - rewrite Hb in Hw. inv_bind Hw. injection Hw as <-.
    unfold close_bracket in Hcl. rewrite Ha in Hcl. cbn [bind] in Hcl.
    unfold attach_leaf in Hcl. rewrite Ht1, Hs1 in Hcl. simpl in Hcl.
    assert (Hpop : (if cascade pol then pop_frame [Tree n ks] else [Tree n ks])
                   = [Tree n ks]) by (destruct (cascade pol); reflexivity).
    rewrite Hpop in Hcl. simpl in Hcl. simp close_loop in Hcl.
    injection Hcl as <-. simpl. rewrite Hty. split; reflexivity.
  - rewrite Hb in Hw. injection Hw as <-. rewrite app_nil_r.
    split; assumption.
Qed.

Lemma scan_unmatched_tokens (pol : policy) (toks : list string) :
  forallb (unmatched pol) toks = true ->
  forall st st' n ks,
    stack st = [Tree n ks] ->
    inTag st = [] ->
    scan pol st toks = Ok st' ->
    exists ls,
      leaf_seq pol (itmType st) toks = Ok ls /\
      stack st' = [Tree n (ks ++ map leaf_of ls)].
Proof.
  induction toks as [|tok rest IH]; simpl; intros Hun st st' n ks Hs Ht H.
  - injection H as <-. exists []. simpl. rewrite app_nil_r.
    split; [reflexivity | exact Hs].
  - apply andb_prop in Hun. destruct Hun as [Htok Hrest].
    inv_bind H. rename a into st1.
    destruct (process_token_unmatched_token pol st st1 tok n ks Htok Hs Ht Ha)
      as (itm & w & Hr & Hw & Ht1 & Hs1).
    destruct (IH Hrest _ _ _ _ Hs1 Ht1 H) as (ls & Hls & Hs').
    rewrite Hr. cbn [bind]. rewrite Hw. cbn [bind]. rewrite Hls. cbn [bind].
    eexists. split; [reflexivity|].
    rewrite Hs', <- app_assoc. destruct w; reflexivity.
Qed.

(** Whatever the policy, a readable sentence none of whose bracket labels
    matches it comes back as the flat tree: the root [top_node] alone, with
    the leaves of the closing tokens as its children, in order. *)
Theorem sentence_without_match_is_flat (pol : policy) (toks : list string) :
  policy_ok pol = true ->
  forallb token_ok toks = true ->
  forallb (unmatched pol) toks = true ->
  exists ls,
    leaf_seq pol None toks = Ok ls /\
    chunk_sentence pol toks = Ok [Tree (top_node pol) (map leaf_of ls)].
Proof.
  intros Hp Ht Hun.
  destruct (leaf_seq_total pol toks Hp Ht None) as (ls & Hls & _).
  exists ls. split; [exact Hls|].
  unfold chunk_sentence.
  destruct (scan_total pol toks (init pol) ls (safe_init pol) Hls)
    as (st & Hscan & _).
  rewrite Hscan. simpl.
  destruct (scan_unmatched_tokens pol toks Hun (init pol) st (top_node pol) []
              eq_refl eq_refl Hscan) as (ls' & Hls' & Hs).
  simpl in Hls'. rewrite Hls in Hls'. injection Hls' as <-.
  rewrite Hs. reflexivity.
Qed.

Lemma sentence_without_match_is_flat_witness :
  policy_ok (Policy (Some ["NP"]) "S" false true true) = true /\
  forallb token_ok ["(C"; "w1)"; "(PP"; "(P"; "w2)"; "(N"; "w3))"; "(."; "w4)"]
  = true /\
  forallb (unmatched (Policy (Some ["NP"]) "S" false true true))
          ["(C"; "w1)"; "(PP"; "(P"; "w2)"; "(N"; "w3))"; "(."; "w4)"] = true /\
  exists ls,
    leaf_seq (Policy (Some ["NP"]) "S" false true true) None
             ["(C"; "w1)"; "(PP"; "(P"; "w2)"; "(N"; "w3))"; "(."; "w4)"]
    = Ok ls /\
    chunk_sentence (Policy (Some ["NP"]) "S" false true true)
                   ["(C"; "w1)"; "(PP"; "(P"; "w2)"; "(N"; "w3))"; "(."; "w4)"]
    = Ok [Tree "S" (map leaf_of ls)].
Proof.
  split; [reflexivity|]. split; [reflexivity|]. split; [reflexivity|].
  apply (sentence_without_match_is_flat
           (Policy (Some ["NP"]) "S" false true true)
           ["(C"; "w1)"; "(PP"; "(P"; "w2)"; "(N"; "w3))"; "(."; "w4)"]
           eq_refl eq_refl eq_refl).
Defined.

(** * Sentence segmentation *)

(** ** [_strip_spaces] returns a normalized string *)

Lemma istab_isspace (c : ascii) : istab c = true -> isspace c = true.
Proof.
  unfold istab, isspace. intros H. apply Nat.eqb_eq in H. rewrite H.
  reflexivity.
Qed.

Lemma space_not_tab (c : ascii) : Ascii.eqb c " " = true -> istab c = false.
Proof.
  intros H. apply Ascii.eqb_eq in H. subst c. reflexivity.
Qed.

Lemma final_cons (a : ascii) (s : string) :
  s <> EmptyString -> Py.final (String a s) = Py.final s.
Proof.
  destruct s; [contradiction | reflexivity].
Qed.

Lemma final_ok_nonempty (s : string) (c : ascii) :
  Py.final s = Ok c -> s <> EmptyString.
Proof.
  intros H ->. discriminate H.
Qed.

Lemma rstrip_empty (s : string) :
  all_space s = true -> rstrip s = EmptyString.
Proof.
  destruct s as [|c r]; [reflexivity|]. simpl. intros H. rewrite H.
  reflexivity.
Qed.

Lemma rstrip_empty_inv (s : string) :
  rstrip s = EmptyString -> all_space s = true.
Proof.
  destruct s as [|c r]; [reflexivity|]. simpl.
  destruct (isspace c && all_space r); [reflexivity | discriminate].
Qed.

Lemma rstrip_final (s : string) :
  rstrip s = EmptyString \/
  exists c, Py.final (rstrip s) = Ok c /\ isspace c = false.
Proof.
  induction s as [|a r IH]; [left; reflexivity|]. simpl.
  destruct (isspace a && all_space r) eqn:E; [left; reflexivity|]. right.
  destruct IH as [Hr|(c & Hc & Hs)].
  - rewrite Hr. exists a. split; [reflexivity|].
    destruct (isspace a) eqn:Ha; [|reflexivity].
    simpl in E. apply rstrip_empty_inv in Hr. rewrite Hr in E.
    discriminate E.
  - exists c. split; [|exact Hs].
    rewrite final_cons; [exact Hc|]. apply (final_ok_nonempty _ c Hc).
Qed.

Lemma lstrip_head (s : string) :
  lstrip s = EmptyString \/
  exists c r, lstrip s = String c r /\ isspace c = false.
Proof.
  induction s as [|a r IH]; [left; reflexivity|]. simpl.
  destruct (isspace a) eqn:Ha; [exact IH|].
  right. exists a, r. split; [reflexivity | exact Ha].
Qed.

Lemma final_sub_runs (p : ascii -> bool) (s : string) (c : ascii) :
  Py.final s = Ok c ->
  p c = false ->
  forall b, Py.final (sub_runs p b s) = Ok c.
Proof.
  induction s as [|a r IH]; intros Hf Hp b; [discriminate Hf|].
  destruct r as [|a' r'].
  - injection Hf as ->. simpl. rewrite Hp. reflexivity.
  - assert (Hr : Py.final (String a' r') = Ok c) by exact Hf.
    assert (Hne : forall b', sub_runs p b' (String a' r') <> EmptyString).
    { intros b'. apply (final_ok_nonempty _ c). apply IH; assumption. }
    change (sub_runs p b (String a (String a' r')))
      with (if p a then
              if b then sub_runs p true (String a' r')
              else String " " (sub_runs p true (String a' r'))
            else String a (sub_runs p false (String a' r'))).
    destruct (p a); [destruct b|].
    + apply IH; assumption.
    + rewrite final_cons by apply Hne. apply IH; assumption.
    + rewrite final_cons by apply Hne. apply IH; assumption.
Qed.

Lemma single_spaced_sub_runs (s : string) :
  forall b,
    (exists c, Py.final s = Ok c /\ isspace c = false) \/
    (s = EmptyString /\ b = false) ->
    single_spaced b (sub_runs isspace b s) = true.
Proof.
  induction s as [|a r IH]; intros b H.
  - destruct H as [(c & Hc & _)|[_ ->]]; [discriminate Hc | reflexivity].
  - destruct H as [(c & Hc & Hs)|[E _]]; [|discriminate E].
    assert (Hr : (exists c0, Py.final r = Ok c0 /\ isspace c0 = false) \/
                 (r = EmptyString /\ isspace a = false)).
    { destruct r as [|a' r'].
      - right. split; [reflexivity|]. injection Hc as ->. exact Hs.
      - left. exists c. split; [exact Hc | exact Hs]. }
    simpl. destruct (isspace a) eqn:Ha.
    + destruct Hr as [Hr|[_ Hr]]; [|discriminate Hr].
      destruct b.
      * apply IH. left. exact Hr.
      * simpl. apply IH. left. exact Hr.
    + simpl. rewrite Ha. apply IH.
      destruct Hr as [Hr|[Hr _]]; [left; exact Hr | right; split; auto].
Qed.

Lemma strip_spaces_normal (s : string) : normal (_strip_spaces s) = true.
Proof.
  unfold _strip_spaces.
  set (x := sub_close (sub_open s)).
  destruct (lstrip_head x) as [Hx|(a & r & Hx & Ha)].
  - rewrite Hx. reflexivity.
  - rewrite Hx. simpl rstrip. rewrite Ha. simpl andb.
    destruct (rstrip_final (lstrip x)) as [Hr|(c & Hc & Hs)].
    + rewrite Hx in Hr. simpl in Hr. rewrite Ha in Hr. discriminate Hr.
    + rewrite Hx in Hc. simpl rstrip in Hc. rewrite Ha in Hc. simpl andb in Hc.
      assert (Hta : istab a = false).
      { destruct (istab a) eqn:E; [|reflexivity].
        apply istab_isspace in E. rewrite E in Ha. discriminate Ha. }
      assert (Htc : istab c = false).
      { destruct (istab c) eqn:E; [|reflexivity].
        apply istab_isspace in E. rewrite E in Hs. discriminate Hs. }
      pose proof (final_sub_runs istab _ c Hc Htc false) as Hu.
      simpl sub_runs in Hu |- *. rewrite Hta in Hu |- *.
      pose proof (single_spaced_sub_runs _ false
                    (or_introl (ex_intro _ c (conj Hu Hs)))) as Hv.
      simpl sub_runs in Hv |- *. rewrite Ha in Hv |- *.
      simpl in Hv |- *. rewrite Ha in Hv |- *. exact Hv.
Qed.

Lemma single_spaced_split (s : string) :
  forall b,
    single_spaced b s = true ->
    exists h t,
      Py.split s " " = h :: t /\
      (b = true -> h <> EmptyString) /\
      no_space h = true /\
      Forall (fun x => x <> EmptyString /\ no_space x = true) t.
Proof.
  induction s as [|a r IH]; intros b H.
  - simpl in H. apply negb_true_iff in H. subst b.
    exists EmptyString, []. repeat split; [discriminate | constructor].
  - simpl in H. destruct (isspace a) eqn:Ha.
    + apply andb_prop in H. destruct H as [H Hr].
      apply andb_prop in H. destruct H as [Hsp Hb].
      apply negb_true_iff in Hb. subst b.
      destruct (IH true Hr) as (h & t & E & Hh & Hn & Ht).
      simpl. rewrite Hsp. exists EmptyString, (h :: t).
      rewrite E. repeat split; [discriminate|].
      constructor; [|exact Ht]. split; [apply Hh; reflexivity | exact Hn].
    + destruct (IH false H) as (h & t & E & _ & Hn & Ht).
      simpl. rewrite E.
      assert (Hne : Ascii.eqb a " " = false).
      { destruct (Ascii.eqb a " ") eqn:E'; [|reflexivity].
        apply Ascii.eqb_eq in E'. subst a. discriminate Ha. }
      rewrite Hne. exists (String a h), t. repeat split.
      * intros _. discriminate.
      * simpl. rewrite Ha, Hn. reflexivity.
      * exact Ht.
Qed.

(** [_strip_spaces] returns a normalized string: it does not begin or end
    with white space, holds no tab or newline, and no two spaces in a row.
    Split at its spaces it therefore gives only pieces that are not empty
    and hold no white space. *)
Theorem strip_spaces_normalizes (s : string) :
  normal (_strip_spaces s) = true /\
  (_strip_spaces s <> "" ->
   Forall (fun tok => tok <> "" /\ no_space tok = true)
          (Py.split (_strip_spaces s) " ")).
Proof.
  pose proof (strip_spaces_normal s) as Hn. split; [exact Hn|].
  intros Hne. destruct (_strip_spaces s) as [|a r]; [contradiction|].
  unfold normal in Hn.
  destruct (single_spaced_split _ true Hn) as (h & t & E & Hh & Hs & Ht).
  rewrite E. constructor; [|exact Ht].
  split; [apply Hh; reflexivity | exact Hs].
Qed.

(** ** A wrapped sentence is unwrapped *)

Lemma all_space_rparen (s : string) : all_space (s ++ ")") = false.
Proof.
  induction s as [|a r IH]; simpl; [reflexivity|].
  rewrite IH. apply andb_false_r.
Qed.

Lemma sub_close_wrapped (s : string) : sub_close (s ++ ")") = s.
Proof.
  induction s as [|a r IH]; simpl; [reflexivity|].
  rewrite all_space_rparen, andb_false_r, IH. reflexivity.
Qed.

Lemma single_spaced_not_all_space (s : string) :
  single_spaced true s = true -> all_space s = false.
Proof.
  destruct s as [|a r]; simpl; [discriminate|].
  destruct (isspace a); [|reflexivity].
  rewrite andb_false_r. discriminate.
Qed.

Lemma single_spaced_rstrip (s : string) :
  forall b, single_spaced b s = true -> rstrip s = s.
Proof.
  induction s as [|a r IH]; intros b H; [reflexivity|].
  simpl in H |- *. destruct (isspace a).
  - apply andb_prop in H. destruct H as [_ Hr].
    rewrite (single_spaced_not_all_space r Hr). simpl.
    rewrite (IH true Hr). reflexivity.
  - simpl. rewrite (IH false H). reflexivity.
Qed.

Lemma single_spaced_sub_tabs (s : string) :
  forall b b', single_spaced b s = true -> sub_runs istab b' s = s.
Proof.
  induction s as [|a r IH]; intros b b' H; [reflexivity|].
  simpl in H |- *. destruct (isspace a) eqn:Ha.
  - apply andb_prop in H. destruct H as [H Hr].
    apply andb_prop in H. destruct H as [Hsp _].
    rewrite (space_not_tab a Hsp), (IH true false Hr). reflexivity.
  - destruct (istab a) eqn:Ht.
    + apply istab_isspace in Ht. rewrite Ht in Ha. discriminate Ha.
    + rewrite (IH false false H). reflexivity.
Qed.

Lemma single_spaced_sub_spaces (s : string) :
  forall b, single_spaced b s = true -> sub_runs isspace b s = s.
Proof.
  induction s as [|a r IH]; intros b H; [reflexivity|].
  simpl in H |- *. destruct (isspace a) eqn:Ha.
  - apply andb_prop in H. destruct H as [H Hr].
    apply andb_prop in H. destruct H as [Hsp Hb].
    apply negb_true_iff in Hb. subst b.
    apply Ascii.eqb_eq in Hsp. subst a.
    rewrite (IH true Hr). reflexivity.
  - rewrite (IH false H). reflexivity.
Qed.

Lemma normal_lstrip (s : string) : normal s = true -> lstrip s = s.
Proof.
  destruct s as [|a r]; [reflexivity|]. simpl.
  destruct (isspace a); [|reflexivity].
  rewrite andb_false_r. discriminate.
Qed.

Lemma normal_tail_steps (s : string) :
  normal s = true ->
  sub_runs isspace false (sub_runs istab false (rstrip (lstrip s))) = s.
Proof.
  intros Hn. rewrite (normal_lstrip s Hn).
  destruct s as [|a r]; [reflexivity|]. unfold normal in Hn.
  rewrite (single_spaced_rstrip _ true Hn).
  rewrite (single_spaced_sub_tabs _ true false Hn).
  simpl in Hn |- *. destruct (isspace a) eqn:Ha.
  - rewrite andb_false_r in Hn. discriminate Hn.
  - rewrite (single_spaced_sub_spaces r false Hn). reflexivity.
Qed.

Lemma single_spaced_some_text (s : string) :
  forall b,
    single_spaced b s = true -> s <> EmptyString -> all_space s = false.
Proof.
  induction s as [|a r IH]; intros b H Hne; [contradiction|].
  simpl in H |- *. destruct (isspace a); [|reflexivity].
  apply andb_prop in H. destruct H as [_ Hr]. simpl.
  apply (IH true Hr). intros ->. discriminate Hr.
Qed.

Lemma single_spaced_sub_close (u : string) :
  forall b,
    single_spaced b u = true ->
    (forall c, Py.final u = Ok c -> c <> ")"%char) ->
    sub_close u = u.
Proof.
  induction u as [|a r IH]; intros b Hu Hf; [reflexivity|].
  simpl. destruct (Ascii.eqb a ")" && all_space r) eqn:E.
  - apply andb_prop in E. destruct E as [Ea Er].
    apply Ascii.eqb_eq in Ea. subst a. exfalso.
    destruct r as [|a' r'].
    + apply (Hf ")"%char); reflexivity.
    + change (single_spaced b (String ")" (String a' r')))
        with (single_spaced false (String a' r')) in Hu.
      rewrite (single_spaced_some_text _ false Hu) in Er by discriminate.
      discriminate Er.
  - f_equal. simpl in Hu. destruct r as [|a' r']; [reflexivity|].
    destruct (isspace a).
    + apply andb_prop in Hu. destruct Hu as [_ Hu].
      apply (IH true Hu). intros c Hc. apply Hf. exact Hc.
    + apply (IH false Hu). intros c Hc. apply Hf. exact Hc.
Qed.

(** A normalized sentence wrapped in one pair of round brackets comes back
    as it was, whatever brackets it holds itself; and a normalized string
    that neither starts with an open bracket nor ends with a close bracket
    is left alone. *)
Theorem strip_spaces_unwraps (s : string) :
  normal s = true ->
  _strip_spaces ("(" ++ s ++ ")") = s /\
  (String.prefix "(" s = false ->
   (forall c, Py.final s = Ok c -> c <> ")"%char) ->
   _strip_spaces s = s).
Proof.
  intros Hn. split.
  - unfold _strip_spaces. simpl sub_open. rewrite sub_close_wrapped.
    apply normal_tail_steps, Hn.
  - intros Hopen Hclose. unfold _strip_spaces.
    assert (E1 : sub_open s = s).
    { destruct s as [|a r]; [reflexivity|]. simpl in Hopen |- *.
      destruct (ascii_dec "(" a) as [<-|Hne].
      - destruct r; discriminate Hopen.
      - destruct a as [[] [] [] [] [] [] [] []]; try reflexivity.
        contradiction Hne. reflexivity. }
    rewrite E1.
    assert (E2 : sub_close s = s).
    { destruct s as [|a0 r0]; [reflexivity|]. unfold normal in Hn.
      apply (single_spaced_sub_close _ true Hn Hclose). }
    rewrite E2. apply normal_tail_steps, Hn.
Qed.

Lemma strip_spaces_unwraps_witness :
  normal "(IP-MAT (NP-NOM (PRO^N He)) (VBD com))" = true /\
  _strip_spaces ("(" ++ "(IP-MAT (NP-NOM (PRO^N He)) (VBD com))" ++ ")")
  = "(IP-MAT (NP-NOM (PRO^N He)) (VBD com))".
Proof.
  split; [reflexivity|].
  apply (proj1 (strip_spaces_unwraps
                  "(IP-MAT (NP-NOM (PRO^N He)) (VBD com))" eq_refl)).
Defined.

(** ** The sentences of [_parse] *)

Lemma string_app_nil_r (s : string) : (s ++ "")%string = s.
Proof.
  induction s as [|a r IH]; simpl; [reflexivity|]. rewrite IH. reflexivity.
Qed.

Lemma string_app_assoc (s t u : string) :
  ((s ++ t) ++ u)%string = (s ++ (t ++ u))%string.
Proof.
  induction s as [|a r IH]; simpl; [reflexivity|]. rewrite IH. reflexivity.
Qed.

Section ParseProperties.

Variable opens_sentence : string -> bool.

Lemma flush_spec (fp x : string) :
  In x (flush fp) -> x = _strip_spaces fp /\ x <> "".
Proof.
  unfold flush. destruct (String.eqb_spec (_strip_spaces fp) "") as [E|E].
  - intros [].
  - intros [<-|[]]. split; [reflexivity | exact E].
Qed.

Lemma flush_length (fp : string) : (length (flush fp) <= 1)%nat.
Proof.
  unfold flush. destruct (String.eqb (_strip_spaces fp) ""); simpl; lia.
Qed.

Lemma parse_lines_sentences (lines : list string) :
  forall fp x,
    In x (parse_lines opens_sentence fp lines) ->
    x <> "" /\ exists phrase, x = _strip_spaces phrase.
Proof.
  induction lines as [|sent rest IH]; simpl; intros fp x Hx.
  - apply flush_spec in Hx. destruct Hx as [-> Hne].
    split; [exact Hne | exists fp; reflexivity].
  - destruct (opens_sentence sent).
    + apply in_app_or in Hx. destruct Hx as [Hx|Hx].
      * apply flush_spec in Hx. destruct Hx as [-> Hne].
        split; [exact Hne | exists fp; reflexivity].
      * apply (IH sent x Hx).
    + apply (IH _ x Hx).
Qed.

Lemma parse_lines_count (lines : list string) :
  forall fp,
    (length (parse_lines opens_sentence fp lines)
     <= 1 + length (filter opens_sentence lines))%nat.
Proof.
  induction lines as [|sent rest IH]; simpl; intros fp.
  - pose proof (flush_length fp). lia.
  - destruct (opens_sentence sent).
    + rewrite length_app. simpl.
      pose proof (flush_length fp). specialize (IH sent). lia.
    + apply IH.
Qed.

Lemma parse_lines_until_opening (pre : list string) :
  forall fp rest,
    forallb (fun l => negb (opens_sentence l)) pre = true ->
    parse_lines opens_sentence fp (pre ++ rest)
    = parse_lines opens_sentence
        (fp ++ fold_right String.append "" pre)%string rest.
Proof.
  induction pre as [|l pre IH]; intros fp rest Hpre.
  - simpl. rewrite string_app_nil_r. reflexivity.
  - simpl in Hpre. apply andb_prop in Hpre. destruct Hpre as [Hl Hpre].
    apply negb_true_iff in Hl.
    change ((l :: pre) ++ rest) with (l :: (pre ++ rest)).
    cbn [parse_lines]. rewrite Hl, (IH _ _ Hpre). f_equal.
    simpl. apply string_app_assoc.
Qed.

End ParseProperties.

(** Every sentence [_parse] yields is a result of [_strip_spaces] that is
    not empty, hence normalized; there is at most one sentence more than
    there are lines that open a sentence. *)
Theorem parse_yields_normalized_sentences (opens_sentence : string -> bool)
    (text : string) :
  (forall x, In x (_parse opens_sentence text) ->
             x <> "" /\ normal x = true) /\
  (length (_parse opens_sentence text)
   <= 1 + length (filter opens_sentence
                         (Py.split (strip_annotations text) Re.newline)))%nat.
Proof.
  unfold _parse. split.
  - intros x Hx. apply parse_lines_sentences in Hx.
    destruct Hx as (Hne & phrase & ->). split; [exact Hne|].
    apply strip_spaces_normal.
  - apply parse_lines_count.
Qed.

(** The lines before the first line that opens a sentence are glued to
    the phrase held so far, without a separator; the phrase is flushed when
    that line comes, which starts the next phrase.  So a text without any
    such line is not dropped: all of it is one phrase, yielded unless it
    strips to nothing. *)
Theorem parse_lines_joins_until_opening (opens_sentence : string -> bool)
    (fp : string) (pre : list string) :
  forallb (fun l => negb (opens_sentence l)) pre = true ->
  parse_lines opens_sentence fp pre
  = flush (fp ++ fold_right String.append "" pre)%string /\
  (forall sent rest,
      opens_sentence sent = true ->
      parse_lines opens_sentence fp (pre ++ sent :: rest)
      = flush (fp ++ fold_right String.append "" pre)%string
        ++ parse_lines opens_sentence sent rest).
Proof.
  intros Hpre. split.
  - rewrite <- (app_nil_r pre) at 1.
    rewrite (parse_lines_until_opening opens_sentence pre fp [] Hpre).
    reflexivity.
  - intros sent rest Hopen.
    rewrite (parse_lines_until_opening opens_sentence pre fp _ Hpre).
    simpl. rewrite Hopen. reflexivity.
Qed.

Lemma parse_lines_joins_until_opening_witness :
  forallb (fun l => negb (String.prefix "(" l)) ["  (VBD com))"; "  )"] = true /\
  parse_lines (String.prefix "(") "( (IP-MAT (NP-NOM (PRO^N He))"
              (["  (VBD com))"; "  )"] ++ "( (CODE <T2>)" :: [])
  = flush ("( (IP-MAT (NP-NOM (PRO^N He))"
           ++ fold_right String.append "" ["  (VBD com))"; "  )"])%string
    ++ parse_lines (String.prefix "(") "( (CODE <T2>)" [].
Proof.
  split; [reflexivity|].
  apply (proj2 (parse_lines_joins_until_opening
                  (String.prefix "(") "( (IP-MAT (NP-NOM (PRO^N He))"
                  ["  (VBD com))"; "  )"] eq_refl)
               "( (CODE <T2>)" [] eq_refl).
Defined.

(** ** The pre-filter of [_parse] *)

Lemma occurs_cons (p : string) (a : ascii) (r : string) :
  occurs p (String a r) = false ->
  String.prefix p (String a r) = false /\ occurs p r = false.
Proof.
  simpl occurs. intros H. apply orb_false_iff in H. exact H.
Qed.

Lemma rx_pattern_no_prefix (t : string) :
  String.prefix "(CODE" t = false ->
  String.prefix "(ID" t = false ->
  Re.rx_pattern t = None.
Proof.
  unfold Re.rx_pattern. intros -> ->. reflexivity.
Qed.

(** A text in which neither [(CODE] nor [(ID] occurs passes the pre-filter
    of [_parse] unchanged. *)
Theorem strip_annotations_leaves_plain_text (s : string) :
  occurs "(CODE" s = false ->
  occurs "(ID" s = false ->
  strip_annotations s = s.
Proof.
  unfold strip_annotations, Re.sub.
  induction s as [|a r IH]; intros Hc Hi; [reflexivity|].
  apply occurs_cons in Hc. destruct Hc as [Hc Hcr].
  apply occurs_cons in Hi. destruct Hi as [Hi Hir].
  cbn [Re.sub_from]. rewrite (rx_pattern_no_prefix _ Hc Hi).
  rewrite (IH Hcr Hir). reflexivity.
Qed.

Lemma strip_annotations_leaves_plain_text_witness :
  occurs "(CODE" "(IP-MAT (NP-NOM (PRO^N He)) (VBD com))" = false /\
  occurs "(ID" "(IP-MAT (NP-NOM (PRO^N He)) (VBD com))" = false /\
  strip_annotations "(IP-MAT (NP-NOM (PRO^N He)) (VBD com))"
  = "(IP-MAT (NP-NOM (PRO^N He)) (VBD com))".
Proof.
  split; [reflexivity|]. split; [reflexivity|].
  apply (strip_annotations_leaves_plain_text
           "(IP-MAT (NP-NOM (PRO^N He)) (VBD com))" eq_refl eq_refl).
Defined.

Lemma occurs_char_head (c a : ascii) (r : string) :
  String.prefix (String c "") (String a r) = false -> Ascii.eqb a c = false.
Proof.
  simpl. destruct (ascii_dec c a) as [->|Hne].
  - destruct r; discriminate.
  - intros _. apply Ascii.eqb_neq. intros ->. contradiction.
Qed.

Lemma greedy_rparen_none (b : string) :
  occurs ")" b = false -> Re.greedy_rparen b = None.
Proof.
  induction b as [|a r IH]; intros H; [reflexivity|].
  apply occurs_cons in H. destruct H as [Ha Hr].
  apply occurs_char_head in Ha. simpl.
  rewrite (IH Hr), Ha. destruct (Ascii.eqb a Re.newline); reflexivity.
Qed.

Lemma greedy_digit_rparen_none (b : string) :
  occurs ")" b = false -> Re.greedy_digit_rparen b = None.
Proof.
  induction b as [|a r IH]; intros H; [reflexivity|].
  apply occurs_cons in H. destruct H as [_ Hr]. simpl.
  rewrite (IH Hr). destruct (Ascii.eqb a Re.newline); [reflexivity|].
  destruct r as [|d r']; [reflexivity|].
  apply occurs_cons in Hr. destruct Hr as [Hd _].
  apply occurs_char_head in Hd. rewrite Hd, andb_false_r. reflexivity.
Qed.

Lemma occurs_drop (p : string) (n : nat) (s : string) :
  occurs p s = false -> occurs p (Re.drop n s) = false.
Proof.
  revert s. induction n as [|n IH]; intros s H; [destruct s; exact H|].
  destruct s as [|a r]; [exact H|].
  apply occurs_cons in H. destruct H as [_ Hr]. simpl. apply IH, Hr.
Qed.

Lemma rx_pattern_no_rparen (t : string) :
  occurs ")" t = false -> Re.rx_pattern t = None.
Proof.
  intros H. unfold Re.rx_pattern.
  rewrite (greedy_rparen_none _ (occurs_drop ")" 5 t H)).
  rewrite (greedy_digit_rparen_none _ (occurs_drop ")" 3 t H)).
  destruct (String.prefix "(CODE" t), (String.prefix "(ID" t); reflexivity.
Qed.

Lemma sub_rx_no_rparen (b : string) :
  occurs ")" b = false -> Re.sub_from Re.rx_pattern 0 b = b.
Proof.
  induction b as [|a r IH]; intros H; [reflexivity|].
  cbn [Re.sub_from]. rewrite (rx_pattern_no_rparen _ H).
  apply occurs_cons in H. destruct H as [_ Hr]. rewrite (IH Hr).
  reflexivity.
Qed.

Lemma sub_from_skip (m : string -> option nat) (x y : string) :
  Re.sub_from m (String.length x) (x ++ y)%string = Re.sub_from m 0 y.
Proof.
  induction x as [|a r IH]; simpl.
  - destruct y; reflexivity.
  - exact IH.
Qed.

Lemma greedy_rparen_line (a b : string) :
  occurs (String Re.newline "") a = false ->
  Re.greedy_rparen b = None ->
  Re.greedy_rparen (a ++ String ")" b)%string = Some (S (String.length a)).
Proof.
  intros Ha Hb. induction a as [|c r IH].
  - simpl. rewrite Hb. reflexivity.
  - apply occurs_cons in Ha. destruct Ha as [Hc Hr].
    apply occurs_char_head in Hc. simpl. rewrite Hc, (IH Hr). reflexivity.
Qed.

Lemma prefix_app (p x : string) : String.prefix p (p ++ x)%string = true.
Proof.
  induction p as [|a r IH]; simpl; [destruct x; reflexivity|].
  destruct (ascii_dec a a); [exact IH | contradiction].
Qed.

Lemma string_length_app (s t : string) :
  String.length (s ++ t)%string = String.length s + String.length t.
Proof.
  induction s as [|a r IH]; simpl; [reflexivity|]. rewrite IH. reflexivity.
Qed.

(** The [CODE] pattern is greedy: from [(CODE] it deletes everything up
    to the last close bracket of the line, whatever brackets and nodes lie
    between, and keeps what follows. *)
Theorem strip_annotations_swallows_line (a b : string) :
  occurs (String Re.newline "") a = false ->
  occurs ")" b = false ->
  strip_annotations ("(CODE" ++ a ++ ")" ++ b) = b.
Proof.
  intros Ha Hb. unfold strip_annotations, Re.sub.
  change ("(CODE" ++ a ++ ")" ++ b)%string
    with (String "(" ("CODE" ++ a ++ String ")" b))%string.
  cbn [Re.sub_from].
  assert (Hm : Re.rx_pattern (String "(" ("CODE" ++ a ++ String ")" b))
               = Some (S (String.length ("CODE" ++ a ++ ")")%string))).
  { unfold Re.rx_pattern.
    change (String "(" ("CODE" ++ a ++ String ")" b))%string
      with ("(CODE" ++ (a ++ String ")" b))%string at 1.
    rewrite prefix_app.
    change (Re.drop 5 (String "(" ("CODE" ++ a ++ String ")" b)))
      with (a ++ String ")" b)%string.
    rewrite (greedy_rparen_line a b Ha (greedy_rparen_none b Hb)).
    simpl. rewrite string_length_app. simpl.
    repeat f_equal. lia. }
  rewrite Hm.
  replace ("CODE" ++ a ++ String ")" b)%string
    with (("CODE" ++ a ++ ")") ++ b)%string.
  - rewrite sub_from_skip. apply sub_rx_no_rparen, Hb.
  - simpl. rewrite string_app_assoc. reflexivity.
Qed.

Lemma strip_annotations_swallows_line_witness :
  occurs (String Re.newline "") " <T1>) (NP (N dog)" = false /\
  occurs ")" " rest" = false /\
  strip_annotations ("(CODE" ++ " <T1>) (NP (N dog)" ++ ")" ++ " rest")
  = " rest".
Proof.
  split; [reflexivity|]. split; [reflexivity|].
  apply (strip_annotations_swallows_line " <T1>) (NP (N dog)" " rest"
           eq_refl eq_refl).
Defined.

(** * The readers *)

(** ** The manifest check of the combined reader *)

Lemma existsb_eqb_In (x : string) (l : list string) :
  existsb (String.eqb x) l = true <-> In x l.
Proof.
  rewrite existsb_exists. split.
  - intros (y & Hy & E). apply String.eqb_eq in E. subst y. exact Hy.
  - intros H. exists x. split; [exact H | apply String.eqb_refl].
Qed.

Lemma set_ne_false (a b : list string) :
  set_ne a b = false <-> (forall x, In x a <-> In x b).
Proof.
  unfold set_ne. rewrite negb_false_iff, andb_true_iff, !forallb_forall.
  split.
  - intros [Hab Hba] x. split; intros Hx.
    + apply existsb_eqb_In, Hab, Hx.
    + apply existsb_eqb_In, Hba, Hx.
  - intros H. split; intros x Hx; apply existsb_eqb_In, H, Hx.
Qed.

(** The combined reader is built exactly when its two sub-readers found the
    same documents, in whatever order and number; otherwise [ValueError] is
    raised.  Its items are those of the parse reader, so each of them is
    known to both sub-readers. *)
Theorem reader_checks_manifest (psd_items pos_items : list string) :
  ((forall x, In x psd_items <-> In x pos_items) ->
   YCOECorpusReader__init__ psd_items pos_items
   = Ok (Reader psd_items pos_items psd_items)) /\
  (~ (forall x, In x psd_items <-> In x pos_items) ->
   YCOECorpusReader__init__ psd_items pos_items = Raise ValueError) /\
  (forall r,
      YCOECorpusReader__init__ psd_items pos_items = Ok r ->
      forall x, In x (items r) -> In x psd_items /\ In x pos_items).
Proof.
  unfold YCOECorpusReader__init__.
  destruct (set_ne psd_items pos_items) eqn:E.
  - assert (Hne : ~ (forall x, In x psd_items <-> In x pos_items)).
    { intros H. apply (proj2 (set_ne_false _ _)) in H.
      rewrite H in E. discriminate E. }
    split; [|split].
    + intros H. contradiction.
    + intros _. reflexivity.
    + intros r H. discriminate H.
  - pose proof (proj1 (set_ne_false _ _) E) as Hsame.
    split; [|split].
    + intros _. reflexivity.
    + intros H. contradiction.
    + intros r H x Hx. injection H as <-. simpl in Hx.
      split; [exact Hx | apply Hsame, Hx].
Qed.

Lemma reader_checks_manifest_witness :
  (forall x, In x ["coadrian.o34"; "cocura.o2"]
             <-> In x ["cocura.o2"; "coadrian.o34"; "cocura.o2"]) /\
  YCOECorpusReader__init__ ["coadrian.o34"; "cocura.o2"]
                           ["cocura.o2"; "coadrian.o34"; "cocura.o2"]
  = Ok (Reader ["coadrian.o34"; "cocura.o2"]
               ["cocura.o2"; "coadrian.o34"; "cocura.o2"]
               ["coadrian.o34"; "cocura.o2"]).
Proof.
  assert (H : forall x, In x ["coadrian.o34"; "cocura.o2"]
                        <-> In x ["cocura.o2"; "coadrian.o34"; "cocura.o2"])
    by (intros x; simpl; tauto).
  split; [exact H|].
  apply (proj1 (reader_checks_manifest
                  ["coadrian.o34"; "cocura.o2"]
                  ["cocura.o2"; "coadrian.o34"; "cocura.o2"]) H).
Defined.

(** ** A list of documents *)

Lemma ycoe_format_cases (item format : string) (pol : policy) :
  (In format Ycoe.formats /\
   exists c, Ycoe.read_document item format pol = Ok c) \/
  (~ In format Ycoe.formats /\
   Ycoe.read_document item format pol = Raise ValueError).
Proof.
  unfold Ycoe.read_document, Ycoe.formats.
  destruct (eqb_string_cases format "raw") as [[E1 B1]|[E1 B1]];
    rewrite B1; [left; split; [simpl; auto | eexists; reflexivity]|].
  destruct (eqb_string_cases format "tokenized") as [[E2 B2]|[E2 B2]];
    rewrite B2; [left; split; [simpl; auto | eexists; reflexivity]|].
  destruct (eqb_string_cases format "tagged") as [[E3 B3]|[E3 B3]];
    rewrite B3; [left; split; [simpl; auto | eexists; reflexivity]|].
  destruct (eqb_string_cases format "chunked") as [[E4 B4]|[E4 B4]];
    rewrite B4; [left; split; [simpl; auto | eexists; reflexivity]|].
  destruct (eqb_string_cases format "parsed") as [[E5 B5]|[E5 B5]];
    rewrite B5; [left; split; [simpl; auto 6 | eexists; reflexivity]|].
  right. split; [|reflexivity]. simpl. intuition congruence.
Qed.

Section ReadListProperties.

Variable concat : list Ycoe.contents -> result Ycoe.contents.

Lemma read_each_unknown (docs : list string) (format : string) (pol : policy) :
  ~ In format Ycoe.formats ->
  docs <> [] ->
  read_each docs format pol = Raise ValueError.
Proof.
  intros Hf Hd. destruct docs as [|doc rest]; [contradiction|]. simpl.
  destruct (ycoe_format_cases doc format pol) as [[Hin _]|[_ ->]].
  - contradiction.
  - reflexivity.
Qed.

Lemma read_each_known (docs : list string) (format : string) (pol : policy) :
  In format Ycoe.formats ->
  exists cs,
    read_each docs format pol = Ok cs /\
    Forall2 (fun doc c => Ycoe.read_document doc format pol = Ok c) docs cs.
Proof.
  intros Hf. induction docs as [|doc rest IH]; simpl.
  - exists []. split; [reflexivity | constructor].
  - destruct (ycoe_format_cases doc format pol) as [[_ (c & Hc)]|[Hn _]].
    + destruct IH as (cs & Hcs & Hall). rewrite Hc, Hcs. simpl.
      exists (c :: cs). split; [reflexivity|]. constructor; assumption.
    + contradiction.
Qed.

End ReadListProperties.

(** For a list of documents the format is checked document by document:
    an unknown format raises [ValueError] as soon as the list has a first
    document, whatever [concat] does, while for an empty list [concat] is
    called on no contents and the format is never looked at.  For a known
    format [concat] receives one content per document, in the order of the
    list. *)
Theorem read_document_list_formats
    (concat : list Ycoe.contents -> result Ycoe.contents)
    (docs : list string) (format : string) (pol : policy) :
  (~ In format Ycoe.formats -> docs <> [] ->
   read_document_list concat docs format pol = Raise ValueError) /\
  read_document_list concat [] format pol = concat [] /\
  (In format Ycoe.formats ->
   exists cs,
     Forall2 (fun doc c => Ycoe.read_document doc format pol = Ok c) docs cs /\
     read_document_list concat docs format pol = concat cs).
Proof.
  unfold read_document_list. split; [|split].
  - intros Hf Hd. rewrite (read_each_unknown docs format pol Hf Hd).
    reflexivity.
  - reflexivity.
  - intros Hf. destruct (read_each_known docs format pol Hf) as (cs & -> & Hall).
    exists cs. split; [exact Hall | reflexivity].
Qed.

Lemma read_document_list_formats_witness :
  ~ In "parsed-no-pos" Ycoe.formats /\
  ["cocura.o2"; "coadrian.o34"] <> [] /\
  read_document_list (fun cs => Py.head cs) ["cocura.o2"; "coadrian.o34"]
                     "parsed-no-pos" (Policy (Some ["NP"]) "S" false true false)
  = Raise ValueError.
Proof.
  assert (Hf : ~ In "parsed-no-pos" Ycoe.formats).
  { simpl. intros H. repeat (destruct H as [H|H]; [discriminate H|]).
    exact H. }
  assert (Hd : ["cocura.o2"; "coadrian.o34"] <> []) by discriminate.
  split; [exact Hf|]. split; [exact Hd|].
  apply (proj1 (read_document_list_formats
                  (fun cs => Py.head cs) ["cocura.o2"; "coadrian.o34"]
                  "parsed-no-pos" (Policy (Some ["NP"]) "S" false true false))
               Hf Hd).
Defined.

(** * What the builder can raise *)

Lemma first_raise (s : string) (e : exn) :
  Py.first s = Raise e -> e = IndexError.
Proof.
  destruct s; simpl; intros H; [injection H as <-; reflexivity | discriminate].
Qed.

Lemma final_raise (s : string) (e : exn) :
  Py.final s = Raise e -> e = IndexError.
Proof.
  induction s as [|a r IH]; simpl; intros H.
  - injection H as <-. reflexivity.
  - destruct r; [discriminate H | apply IH, H].
Qed.

Lemma match_label_raise (pol : policy) (itm : string) (e : exn) :
  match_label pol itm = Raise e ->
  e = TypeError /\ partial_match pol = true /\ chunk_types pol = None.
Proof.
  unfold match_label. destruct (partial_match pol), (chunk_types pol);
    intros H; try discriminate H.
  injection H as <-. repeat split.
Qed.

Lemma closing_word_raise (itm : string) (e : exn) :
  closing_word itm = Raise e -> e = IndexError.
Proof.
  unfold closing_word. destruct (Py.final itm) as [d|e'] eqn:Hd; cbn [bind].
  - destruct (R_BRACKET d); [|discriminate].
    pose proof (split_nonempty itm d) as Hne.
    destruct (Py.split itm d); [contradiction | discriminate].
  - intros H. injection H as <-. apply (final_raise itm e' Hd).
Qed.

Lemma leaf_seq_raise (pol : policy) (toks : list string) (e : exn) :
  forall cur,
    leaf_seq pol cur toks = Raise e ->
    e = IndexError \/
    (e = TypeError /\ partial_match pol = true /\ chunk_types pol = None).
Proof.
  induction toks as [|tok rest IH]; simpl; intros cur H; [discriminate H|].
  destruct (rebind pol cur tok) as [[cur' itm]|e1] eqn:Hr; cbn [bind] in H.
  - destruct (closing_word itm) as [w|e2] eqn:Hw; cbn [bind] in H.
    + destruct (leaf_seq pol cur' rest) as [ls|e3] eqn:Hl; cbn [bind] in H;
        [discriminate H|].
      injection H as <-. apply (IH cur' Hl).
    + injection H as <-. left. apply (closing_word_raise itm e2 Hw).
  - injection H as <-. unfold rebind in Hr.
    destruct (Py.first tok) as [c|e0] eqn:Hc; cbn [bind] in Hr.
    + destruct (L_BRACKET c); [|discriminate Hr].
      destruct (match_label pol (Py.tail tok)) as [[m l]|e0] eqn:Hm;
        cbn [bind] in Hr; [discriminate Hr|].
      injection Hr as <-. right. apply (match_label_raise pol _ e0 Hm).
    + injection Hr as <-. left. apply (first_raise tok e0 Hc).
Qed.

Lemma process_token_raise (pol : policy) (st : state) (tok : string)
    (e : exn) :
  safe pol st ->
  process_token pol st tok = Raise e ->
  rebind pol (itmType st) tok = Raise e \/
  exists cur itm,
    rebind pol (itmType st) tok = Ok (cur, itm) /\
    closing_word itm = Raise e.
Proof.
  intros Hsafe H.
  destruct (rebind pol (itmType st) tok) as [[cur itm]|e1] eqn:Hr.
  - right. exists cur, itm. split; [reflexivity|].
    destruct (closing_word itm) as [w|e2] eqn:Hw.
    + destruct (process_token_total pol st tok itm cur w Hsafe Hr Hw)
        as (st' & Hok & _).
      rewrite Hok in H. discriminate H.
    + f_equal. unfold process_token, rebind, closing_word in *.
      destruct (Py.first tok) as [c|e0]; cbn [bind] in *; [|discriminate Hr].
      assert (H1 : exists st1,
                 (if L_BRACKET c then open_bracket pol st tok else Ok (st, tok))
                 = Ok (st1, itm) /\ safe pol st1).
      { destruct (L_BRACKET c).
        - inv_bind Hr. destruct a as [m l]. injection Hr as _ <-.
          apply (open_bracket_total pol st tok l m Hsafe Ha).
        - injection Hr as _ <-. exists st. split; [reflexivity | exact Hsafe]. }
      destruct H1 as (st1 & E1 & Hsafe1). rewrite E1 in H. cbn [bind] in H.
      destruct (Py.final itm) as [d|e3]; cbn [bind] in *.
      * destruct (R_BRACKET d); [|discriminate Hw].
        pose proof (split_nonempty itm d) as Hne.
        destruct (Py.split itm d); [contradiction | discriminate Hw].
      * congruence.
  - left. f_equal. unfold process_token, rebind in *.
    destruct (Py.first tok) as [c|e0]; cbn [bind] in *; [|congruence].
    destruct (L_BRACKET c); [|discriminate Hr].
    unfold open_bracket in H.
    destruct (match_label pol (Py.tail tok)) as [[m l]|e0];
      cbn [bind] in *; [discriminate Hr | congruence].
Qed.

Lemma scan_raise (pol : policy) (toks : list string) (e : exn) :
  forall st,
    safe pol st ->
    scan pol st toks = Raise e ->
    leaf_seq pol (itmType st) toks = Raise e.
Proof.
  induction toks as [|tok rest IH]; simpl; intros st Hsafe H;
    [discriminate H|].
  destruct (process_token pol st tok) as [st1|e1] eqn:Hp; cbn [bind] in H.
  - destruct (process_token_inv pol st st1 tok Hp) as (itm & w & Hr & Hw & _).
    destruct (process_token_total pol st tok itm _ w Hsafe Hr Hw)
      as (st1' & Hp' & Hsafe1).
    rewrite Hp in Hp'. injection Hp' as <-.
    rewrite Hr. cbn [bind]. rewrite Hw. cbn [bind].
    rewrite (IH st1 Hsafe1 H). reflexivity.
  - injection H as <-.
    destruct (process_token_raise pol st tok e1 Hsafe Hp)
      as [Hr|(cur & itm & Hr & Hw)].
    + rewrite Hr. reflexivity.
    + rewrite Hr. cbn [bind]. rewrite Hw. reflexivity.
Qed.

(** The builder never fails on its stack.  When it raises, reading the
    tokens alone raises the same exception: [IndexError] for an empty token
    or for a bracket with nothing left after it, or [TypeError] when
    [chunk_types] is [None] under [partial_match]; it never raises
    [AttributeError] or [ValueError]. *)
Theorem builder_raises_only_on_tokens (pol : policy) (toks : list string)
    (e : exn) :
  chunk_sentence pol toks = Raise e ->
  leaf_seq pol None toks = Raise e /\
  (e = IndexError \/
   (e = TypeError /\ partial_match pol = true /\ chunk_types pol = None)).
Proof.
  unfold chunk_sentence. intros H.
  destruct (scan pol (init pol) toks) as [st|e1] eqn:Hs; [discriminate H|].
  injection H as <-.
  pose proof (scan_raise pol toks e1 (init pol) (safe_init pol) Hs) as Hl.
  split; [exact Hl|]. apply (leaf_seq_raise pol toks e1 None Hl).
Qed.

Lemma builder_raises_only_on_tokens_witness :
  chunk_sentence (Policy None "S" true true false) ["w1)"; "(NP"; "w2)"]
  = Raise TypeError /\
  leaf_seq (Policy None "S" true true false) None ["w1)"; "(NP"; "w2)"]
  = Raise TypeError.
Proof.
  split; [reflexivity|].
  apply (proj1 (builder_raises_only_on_tokens
                  (Policy None "S" true true false) ["w1)"; "(NP"; "w2)"]
                  TypeError eq_refl)).
Defined.

Lemma prefix_of_empty (l : string) : String.prefix l "" = true -> l = "".
Proof.
  destruct l; [reflexivity | discriminate].
Qed.

(** A token that is a lone opening bracket, as the Penn Treebank layout
    [( (S ...] has them, cannot be scanned: nothing is left for [itm[-1]]
    and the builder raises [IndexError], whatever the state, unless the
    policy already raised [TypeError]. *)
Theorem lone_bracket_raises (pol : policy) (st : state) (c : ascii) :
  L_BRACKET c = true ->
  process_token pol st (String c "") = Raise IndexError \/
  (process_token pol st (String c "") = Raise TypeError /\
   partial_match pol = true /\ chunk_types pol = None).
Proof.
  intros Hc. unfold process_token. cbn [Py.first bind]. rewrite Hc.
  unfold open_bracket. cbn [Py.tail].
  destruct (match_label pol "") as [[m l]|e] eqn:Hm; cbn [bind].
  - left.
    destruct (match_label_label pol "" l m Hm) as [Hp _].
    apply prefix_of_empty in Hp. subst l.
    destruct m; [destruct (cascade pol)|]; cbn [bind].
    + reflexivity.
    + destruct (inTag st); cbn [bind]; [|reflexivity].
      destruct (append_top (stack st) (Sub (Tree "" []))) as [s'|e] eqn:Ha;
        cbn [bind]; [reflexivity|].
      unfold append_top in Ha. destruct (rev (stack st)); [|discriminate Ha].
      injection Ha as <-. reflexivity.
    + reflexivity.
  - right. destruct (match_label_raise pol "" e Hm) as (-> & Hp & Hn).
    repeat split; assumption.
Qed.

Lemma lone_bracket_raises_witness :
  L_BRACKET "(" = true /\
  process_token (Policy (Some ["NP"]) "S" false true false)
                (init (Policy (Some ["NP"]) "S" false true false)) "("
  = Raise IndexError.
Proof.
  split; [reflexivity|].
  destruct (lone_bracket_raises
              (Policy (Some ["NP"]) "S" false true false)
              (init (Policy (Some ["NP"]) "S" false true false))
              "("%char eq_refl) as [H|[_ [H _]]].
  - exact H.
  - discriminate H.
Defined.
